(** * Calendar synchronisation of the Rentopia API

    A shallow embedding of [CalendarSyncService]
    (services/calendarSyncService.ts): the guest-information heuristics,
    the iCal parser wrapper, the per-event reconciliation against the
    bookings table and the per-property sync entry points.

    Conventions of the embedding.
    - JavaScript strings are [string]s whose characters are the code units
      below 256 (the Latin-1 range); [toLowerCase], [trim] and the regular
      expression classes are the ECMAScript ones restricted to that range.
    - JavaScript numbers that hold integers (guest counts, night counts,
      time values in milliseconds) are [Z]. [parseInt] rounds to the
      nearest double as the engine does; a number that a double cannot
      hold ([Infinity], from a run of 309 digits or more) and time values
      of 2^53 or more are left out.
    - A [Date] is its time value in milliseconds since the epoch; invalid
      dates are left out.
    - [async] functions are computations over an explicit [World] (the two
      tables, the log of HTTP requests, the number of clock readings) that
      either return a value or throw an [Error] with a message. They run
      one after the other: nothing interleaves with a sync pass.
    - The database answers every query: a statement of the service never
      fails in the store. Property ids are values of the [uuid] column.
    - node-ical, axios, the clock and the generator of row ids are the
      [Runtime] the service runs on. *)

From Stdlib Require Import List Bool Arith ZArith Lia.
From Stdlib Require Import Ascii String DecimalString.
Import ListNotations.

Open Scope string_scope.
Open Scope Z_scope.

(** ** Characters and strings *)

Module Text.

Definition code (c : ascii) : nat := nat_of_ascii c.

Definition between (lo hi : nat) (c : ascii) : bool :=
  (Nat.leb lo (code c) && Nat.leb (code c) hi)%bool.

(** [\d] *)
Definition isDigit (c : ascii) : bool := between 48 57 c.

(** [A-Z], [a-z], [A-Za-z] *)
Definition isUpper (c : ascii) : bool := between 65 90 c.
Definition isLower (c : ascii) : bool := between 97 122 c.
Definition isLetter (c : ascii) : bool := (isUpper c || isLower c)%bool.

(** [\s], which is also what [trim] strips: TAB, LF, VT, FF, CR, SP, NBSP. *)
Definition isWhiteSpace (c : ascii) : bool :=
  (between 9 13 c || Nat.eqb (code c) 32 || Nat.eqb (code c) 160)%bool.

(** Case folding of a regular expression with the [i] flag (and without
    [u]): only A-Z and a-z are identified with each other. *)
Definition foldCase (c : ascii) : ascii :=
  if isUpper c then ascii_of_nat (code c + 32) else c.

(** [String.prototype.toLowerCase] on one code unit: A-Z and the Latin-1
    capitals U+00C0..U+00DE (U+00D7, the multiplication sign, apart). *)
Definition toLowerChar (c : ascii) : ascii :=
  if (isUpper c || (between 192 222 c && negb (Nat.eqb (code c) 215)))%bool
  then ascii_of_nat (code c + 32) else c.

Fixpoint toLowerCase (s : string) : string :=
  match s with
  | EmptyString => EmptyString
  | String c t => String (toLowerChar c) (toLowerCase t)
  end.

(** [s.startsWith(k)] *)
Fixpoint startsWith (s k : string) {struct k} : bool :=
  match k, s with
  | EmptyString, _ => true
  | String _ _, EmptyString => false
  | String a k', String b s' => (Ascii.eqb a b && startsWith s' k')%bool
  end.

(** [s.includes(k)] *)
Fixpoint includes (s k : string) : bool :=
  (startsWith s k ||
   match s with
   | EmptyString => false
   | String _ t => includes t k
   end)%bool.

(** JavaScript truthiness of a string: the empty string is falsy. *)
Definition truthy (s : string) : bool := negb (String.eqb s "").

(** [x || d] for a possibly undefined string [x]. *)
Definition orElse (x : option string) (d : string) : string :=
  match x with
  | Some s => if truthy s then s else d
  | None => d
  end.

(** [x || undefined] and [x || null]. *)
Definition orUndefined (x : option string) : option string :=
  match x with
  | Some s => if truthy s then Some s else None
  | None => None
  end.

Fixpoint trimStart (s : string) : string :=
  match s with
  | EmptyString => EmptyString
  | String c t => if isWhiteSpace c then trimStart t else s
  end.

Fixpoint trimEnd (s : string) : string :=
  match s with
  | EmptyString => EmptyString
  | String c t =>
      match trimEnd t with
      | EmptyString => if isWhiteSpace c then EmptyString else String c EmptyString
      | t' => String c t'
      end
  end.

Definition trim (s : string) : string := trimEnd (trimStart s).

(** The first [n] characters of [s]. *)
Fixpoint take (n : nat) (s : string) : string :=
  match n, s with
  | S n', String c t => String c (take n' t)
  | _, _ => EmptyString
  end.

(** The value of a decimal digit. *)
Definition digitValue (c : ascii) : Z := Z.of_nat (code c - 48).

Fixpoint parseDigits (acc : Z) (s : string) : Z :=
  match s with
  | String c t => if isDigit c then parseDigits (10 * acc + digitValue c) t else acc
  | EmptyString => acc
  end.

(** The integer that the leading run of digits of [s] writes in base
    ten. *)
Definition mathInt (s : string) : Z := parseDigits 0 s.

(** The Number value of a non-negative integer: the nearest double, a
    tie going to the even significand. An integer below 2^53 is a double;
    above, the bits under the 53 leading ones are rounded away. *)
Definition toDouble (n : Z) : Z :=
  if n <? 2 ^ 53 then n
  else
    let e := Z.log2 n - 52 in
    let q := Z.shiftr n e in
    let r := Z.land n (Z.ones e) in
    let half := Z.shiftl 1 (e - 1) in
    let up := ((half <? r) || ((r =? half) && Z.odd q))%bool in
    Z.shiftl (if up then q + 1 else q) e.

(** [parseInt(s, 10)] for a string that begins with a digit, which the
    capture of [(\d+)] always does: the Number value of the integer that
    the leading run of digits writes. *)
Definition parseInt (s : string) : Z := toDouble (mathInt s).

(** The decimal rendering of an integer in a template literal. *)
Definition showZ (z : Z) : string := NilZero.string_of_int (Z.to_int z).

End Text.

Import Text.

(** ** Regular expressions

    The backtracking matcher of ECMAScript for the constructs the service
    uses: character classes and literals, greedy quantifiers over a class,
    sequence, alternation, one capturing group, and the two anchors. *)

Module RegExp.

Inductive regex : Type :=
| Eps
| Chr (p : ascii -> bool)
| Rep (p : ascii -> bool) (lo : nat) (hi : option nat)
| Cat (r1 r2 : regex)
| Alt (r1 r2 : regex)
| Grp (r : regex)
| Bol
| Eol.

(** A matcher state: the index reached, the input that is left, and the
    text of the capturing group once it has closed. *)
Record mstate : Type := MState {
  pos : nat;
  rest : string;
  group1 : option string
}.

Definition cont : Type := mstate -> option mstate.

Definition decr (hi : option nat) : option nat :=
  match hi with
  | Some n => Some (Nat.pred n)
  | None => None
  end.

Definition exhausted (hi : option nat) : bool :=
  match hi with
  | Some 0%nat => true
  | _ => false
  end.

(** The greedy quantifier [p{lo,hi}]: take one more character while it is
    allowed, and fall back to stopping here once [lo] has been reached. *)
Fixpoint rep (p : ascii -> bool) (lo : nat) (hi : option nat)
    (i : nat) (s : string) (g : option string) (k : cont) : option mstate :=
  let stop := match lo with
              | O => k (MState i s g)
              | S _ => None
              end in
  match s with
  | String c t =>
      if (p c && negb (exhausted hi))%bool then
        match rep p (Nat.pred lo) (decr hi) (S i) t g k with
        | Some m => Some m
        | None => stop
        end
      else stop
  | EmptyString => stop
  end.

Fixpoint run (r : regex) (x : mstate) (k : cont) : option mstate :=
  match r with
  | Eps => k x
  | Chr p =>
      match rest x with
      | String c t => if p c then k (MState (S (pos x)) t (group1 x)) else None
      | EmptyString => None
      end
  | Rep p lo hi => rep p lo hi (pos x) (rest x) (group1 x) k
  | Cat r1 r2 => run r1 x (fun y => run r2 y k)
  | Alt r1 r2 =>
      match run r1 x k with
      | Some m => Some m
      | None => run r2 x k
      end
  | Grp r1 =>
      run r1 x (fun y =>
        k (MState (pos y) (rest y) (Some (take (pos y - pos x) (rest x)))))
  | Bol => if Nat.eqb (pos x) 0 then k x else None
  | Eol =>
      match rest x with
      | EmptyString => k x
      | String _ _ => None
      end
  end.

(** [RegExp.prototype.exec] without the [g] flag: the match at the
    leftmost index where the pattern matches. *)
Fixpoint search (r : regex) (i : nat) (s : string) : option mstate :=
  match run r (MState i s None) Some with
  | Some m => Some m
  | None =>
      match s with
      | EmptyString => None
      | String _ t => search r (S i) t
      end
  end.

(** [s.match(r)]: [None] is [null]; otherwise the entry [1] of the match
    array. *)
Definition exec (r : regex) (s : string) : option (option string) :=
  match search r 0 s with
  | Some m => Some (group1 m)
  | None => None
  end.

(** A literal character, and a literal letter of the ASCII range matched
    under the [i] flag. *)
Definition lit (c : ascii) : regex := Chr (Ascii.eqb c).
Definition litI (c : ascii) : regex := Chr (fun d => Ascii.eqb (foldCase c) (foldCase d)).

Fixpoint wordI (w : string) : regex :=
  match w with
  | EmptyString => Eps
  | String c t => Cat (litI c) (wordI t)
  end.

Definition star (p : ascii -> bool) : regex := Rep p 0 None.
Definition plus (p : ascii -> bool) : regex := Rep p 1 None.
Definition opt (p : ascii -> bool) : regex := Rep p 0 (Some 1%nat).

End RegExp.

Import RegExp.

(** ** The guest-information extractor *)

Record CalendarEvent : Type := {
  uid : string;
  summary : string;
  description : option string;
  start : Z;
  end_ : Z;
  location : option string;
  organizer : option string
}.

Record GuestInfo : Type := {
  name : string;
  email : option string;
  phone : option string;
  guests : Z;
  isPlaceholder : bool
}.

(** [/^([A-Za-z\s]{2,50})(?:\s*-|\s*\(|$)/] *)
Definition nameRegex : regex :=
  Cat Bol
   (Cat (Grp (Rep (fun c => isLetter c || isWhiteSpace c)%bool 2 (Some 50%nat)))
        (Alt (Cat (star isWhiteSpace) (lit "-"))
        (Alt (Cat (star isWhiteSpace) (lit "("))
             Eol))).

(** [/(\d+)\s*guests?/i] *)
Definition guestRegex : regex :=
  Cat (Grp (plus isDigit))
   (Cat (star isWhiteSpace)
   (Cat (wordI "guest") (opt (fun d => Ascii.eqb (foldCase "s") (foldCase d))))).

Definition isEmailLocal (c : ascii) : bool :=
  (isLetter c || isDigit c || Ascii.eqb c "." || Ascii.eqb c "_" ||
   Ascii.eqb c "%" || Ascii.eqb c "+" || Ascii.eqb c "-")%bool.

Definition isEmailDomain (c : ascii) : bool :=
  (isLetter c || isDigit c || Ascii.eqb c "." || Ascii.eqb c "-")%bool.

(** [/([a-zA-Z0-9._%+-]+@[a-zA-Z0-9.-]+\.[a-zA-Z]{2,})/] *)
Definition emailRegex : regex :=
  Grp (Cat (plus isEmailLocal)
      (Cat (lit "@")
      (Cat (plus isEmailDomain)
      (Cat (lit ".") (Rep isLetter 2 None))))).

Definition isPhoneChar (c : ascii) : bool :=
  (Ascii.eqb c "+" || isDigit c || isWhiteSpace c || Ascii.eqb c "-" ||
   Ascii.eqb c "(" || Ascii.eqb c ")")%bool.

(** [/(?:phone|tel|mobile):\s*([+\d\s\-\(\)]+)/i] *)
Definition phoneRegex : regex :=
  Cat (Alt (wordI "phone") (Alt (wordI "tel") (wordI "mobile")))
   (Cat (lit ":")
   (Cat (star isWhiteSpace)
        (Grp (plus isPhoneChar)))).

(** The condition of the first branch of [extractGuestInfo]. *)
Definition isBlockedSummary (s : string) : bool :=
  (truthy s &&
   (includes (toLowerCase s) "closed" ||
    includes (toLowerCase s) "blocked" ||
    includes (toLowerCase s) "unavailable" ||
    String.eqb (toLowerCase s) "closed" ||
    includes (toLowerCase s) "not available"))%bool.

(** Name and placeholder flag of the [else if (event.summary)] branch. *)
Definition nameFromSummary (cleanSummary : string) : string * bool :=
  match exec nameRegex cleanSummary with
  | Some (Some m1) =>
      if (truthy m1 &&
          negb (includes (toLowerCase m1) "closed") &&
          negb (includes (toLowerCase m1) "blocked") &&
          negb (includes (toLowerCase m1) "unavailable"))%bool
      then (trim m1, false)
      else (cleanSummary ++ " - Please Update", true)
  | _ => (cleanSummary ++ " - Please Update", true)
  end.

(** Guest count of the [else if (event.summary)] branch. *)
Definition guestsFromSummary (s : string) : Z :=
  match exec guestRegex s with
  | Some (Some m1) => if truthy m1 then Z.max 1 (parseInt m1) else 1
  | _ => 1
  end.

Definition emailFromDescription (d : option string) : option string :=
  match d with
  | Some t =>
      if truthy t then
        match exec emailRegex t with
        | Some m1 => m1
        | None => None
        end
      else None
  | None => None
  end.

Definition phoneFromDescription (d : option string) : option string :=
  match d with
  | Some t =>
      if truthy t then
        match exec phoneRegex t with
        | Some (Some m1) => if truthy m1 then Some (trim m1) else None
        | _ => None
        end
      else None
  | None => None
  end.

Definition extractGuestInfo (event : CalendarEvent) : GuestInfo :=
  let '(name, guests, isPlaceholder) :=
    if isBlockedSummary (summary event) then
      ("Blocked Period - Please Update", 1, true)
    else if truthy (summary event) then
      let cleanSummary := trim (summary event) in
      let '(name, isPlaceholder) := nameFromSummary cleanSummary in
      (name, guestsFromSummary (summary event), isPlaceholder)
    else
      ("Calendar Reservation", 1, true) in
  {| name := name;
     email := orUndefined (emailFromDescription (description event));
     phone := orUndefined (phoneFromDescription (description event));
     guests := guests;
     isPlaceholder := isPlaceholder |}.

(** ** The calendar document as node-ical hands it over *)

(** The [organizer] property of a component: a plain string, or an object
    whose [params.CN] may be missing. *)
Inductive OrganizerField : Type :=
| OrganizerText (s : string)
| OrganizerObject (cn : option string).

(** One entry of the object returned by [ical.parseICS]. A field that is
    [None] is [undefined] on the JavaScript object. *)
Record Component : Type := {
  v_type : string;
  v_uid : option string;
  v_start : option Z;
  v_end : option Z;
  v_summary : option string;
  v_description : option string;
  v_location : option string;
  v_organizer : option OrganizerField
}.

(** ** Results and errors *)

Inductive Outcome (A : Type) : Type :=
| Returned (a : A)
| Thrown (message : string).

Arguments Returned {A} a.
Arguments Thrown {A} message.

Record SyncResult : Type := {
  success : bool;
  message : string;
  bookingsCreated : Z;
  bookingsUpdated : Z;
  bookingsSkipped : Z;
  errors : list string
}.

Definition newResult : SyncResult :=
  {| success := false; message := ""; bookingsCreated := 0;
     bookingsUpdated := 0; bookingsSkipped := 0; errors := [] |}.

(** [result.errors.push(e)] *)
Definition pushError (result : SyncResult) (e : string) : SyncResult :=
  {| success := success result; message := message result;
     bookingsCreated := bookingsCreated result;
     bookingsUpdated := bookingsUpdated result;
     bookingsSkipped := bookingsSkipped result;
     errors := errors result ++ [e] |}.

(** [result.bookingsUpdated++] *)
Definition countUpdated (result : SyncResult) : SyncResult :=
  {| success := success result; message := message result;
     bookingsCreated := bookingsCreated result;
     bookingsUpdated := bookingsUpdated result + 1;
     bookingsSkipped := bookingsSkipped result;
     errors := errors result |}.

(** [result.bookingsCreated++] *)
Definition countCreated (result : SyncResult) : SyncResult :=
  {| success := success result; message := message result;
     bookingsCreated := bookingsCreated result + 1;
     bookingsUpdated := bookingsUpdated result;
     bookingsSkipped := bookingsSkipped result;
     errors := errors result |}.

(** The two assignments that close a sync pass. *)
Definition finish (result : SyncResult) : SyncResult :=
  let ok := Nat.eqb (List.length (errors result)) 0 in
  {| success := ok;
     message :=
       if ok then
         "Sync completed successfully. Created: " ++ showZ (bookingsCreated result)
         ++ ", Updated: " ++ showZ (bookingsUpdated result)
         ++ ", Skipped: " ++ showZ (bookingsSkipped result)
       else
         "Sync completed with "
         ++ showZ (Z.of_nat (List.length (errors result))) ++ " errors";
     bookingsCreated := bookingsCreated result;
     bookingsUpdated := bookingsUpdated result;
     bookingsSkipped := bookingsSkipped result;
     errors := errors result |}.

(** ** The persistent store and the outside world *)

(** A row of [properties], with the columns the service reads. *)
Record Property : Type := {
  p_id : string;
  p_name : string;
  ical_url : option string;
  sync_enabled : bool;
  user_id : string;
  last_sync_at : option Z
}.

(** A row of [bookings], under its column names. Amounts are exact
    decimals, kept in hundredths. *)
Record Booking : Type := {
  booking_id : string;
  property_id : string;
  guest_name : string;
  guest_email : option string;
  guest_phone : option string;
  number_of_guests : Z;
  check_in_date : Z;
  check_out_date : Z;
  nights_count : Z;
  base_amount : Z;
  cleaning_fee : Z;
  taxes : Z;
  total_amount : Z;
  security_deposit : Z;
  booking_status : string;
  payment_status : string;
  booking_source : option string;
  confirmation_code : option string;
  external_id : option string;
  special_requests : option string;
  internal_notes : option string;
  updated_at : Z
}.

(** What axios gets for one GET: a response with a status and a body, a
    failure of the transport (no route, timeout, ...) with the message of
    the error, or, for a URL that axios refuses before it sends anything
    (a malformed URL, a protocol it does not speak), the message of that
    error. *)
Inductive HttpOutcome : Type :=
| HttpResponse (status : Z) (data : string)
| HttpFailure (message : string)
| HttpUnsent (message : string).

Record World : Type := {
  properties : list Property;
  bookings : list Booking;
  generated : nat;          (* row identifiers handed out so far *)
  requests : list string;   (* URLs fetched so far, oldest first *)
  clockReads : nat          (* readings of the clock so far *)
}.

(** What the service takes from its libraries and its environment. *)
Record Runtime : Type := {
  parseICS : string -> Outcome (list (string * Component));
                                       (* node-ical, keys in [for-in] order *)
  toISOString : Z -> string;           (* Date.prototype.toISOString *)
  clock : nat -> Z;                    (* the n-th reading of the clock *)
  network : nat -> string -> HttpOutcome;
                                       (* the answer to the n-th request *)
  uuid : nat -> string                 (* the n-th generated identifier *)
}.

(** An [async] function: it runs in a world, changes it, and returns or
    throws. *)
Definition Async (A : Type) : Type := World -> Outcome A * World.

Definition ret {A : Type} (a : A) : Async A := fun w => (Returned a, w).

Definition throw {A : Type} (msg : string) : Async A := fun w => (Thrown msg, w).

Definition bind {A B : Type} (c : Async A) (f : A -> Async B) : Async B :=
  fun w =>
    match c w with
    | (Returned a, w') => f a w'
    | (Thrown msg, w') => (Thrown msg, w')
    end.

(** [try { c } catch (error) { h(error.message) }] *)
Definition tryCatch {A : Type} (c : Async A) (h : string -> Async A) : Async A :=
  fun w =>
    match c w with
    | (Returned a, w') => (Returned a, w')
    | (Thrown msg, w') => h msg w'
    end.

Definition lift {A : Type} (o : Outcome A) : Async A := fun w => (o, w).

Declare Scope async_scope.
Delimit Scope async_scope with async.
Notation "x <- c ;; k" := (bind c (fun x => k))
  (at level 61, c at next level, right associativity) : async_scope.
Notation "c ;;; k" := (bind c (fun _ => k))
  (at level 61, right associativity) : async_scope.

Definition msPerDay : Z := 1000 * 60 * 60 * 24.

(** [Math.ceil(a / b)] for integers [a] and [b > 0]. *)
Definition ceilDiv (a b : Z) : Z := - ((- a) / b).

(** The night count of [processCalendarEvent]. *)
Definition nightsOf (event : CalendarEvent) : Z :=
  ceilDiv (end_ event - start event) msPerDay.

(** ** The service *)

Section CalendarSyncService.

Variable rt : Runtime.

Local Open Scope async_scope.

(** *** Primitive effects *)

(** [new Date()]: one more reading of the clock. The database's [NOW()]
    is a reading of the same clock. *)
Definition now : Async Z :=
  fun w =>
    (Returned (clock rt (clockReads w)),
     {| properties := properties w; bookings := bookings w;
        generated := generated w; requests := requests w;
        clockReads := S (clockReads w) |}).

(** [axios.get(url, ...)]: a request that is sent is logged; a response
    with a 2xx status resolves, any other status and any transport failure
    rejects, and so does a URL that axios refuses, for which nothing is
    sent. *)
Definition axios_get (url : string) : Async (Z * string) :=
  fun w =>
    let w' := {| properties := properties w; bookings := bookings w;
                 generated := generated w; requests := requests w ++ [url];
                 clockReads := clockReads w |} in
    match network rt (List.length (requests w)) url with
    | HttpResponse status data =>
        if ((200 <=? status) && (status <? 300))%bool
        then (Returned (status, data), w')
        else (Thrown ("Request failed with status code " ++ showZ status), w')
    | HttpFailure msg => (Thrown msg, w')
    | HttpUnsent msg => (Thrown msg, w)
    end.

(** [SELECT ... FROM properties WHERE id = propertyId] *)
Definition selectProperty (propertyId : string) : Async (list Property) :=
  fun w =>
    (Returned (filter (fun p => String.eqb (p_id p) propertyId) (properties w)), w).

(** [SELECT id, name FROM properties WHERE sync_enabled = true AND
    ical_url IS NOT NULL] *)
Definition selectSyncedProperties : Async (list Property) :=
  fun w =>
    (Returned (filter (fun p =>
                 (sync_enabled p &&
                  match ical_url p with Some _ => true | None => false end)%bool)
               (properties w)), w).

Definition touch (t : Z) (propertyId : string) (p : Property) : Property :=
  if String.eqb (p_id p) propertyId then
    {| p_id := p_id p; p_name := p_name p; ical_url := ical_url p;
       sync_enabled := sync_enabled p; user_id := user_id p;
       last_sync_at := Some t |}
  else p.

(** [UPDATE properties SET last_sync_at = NOW() WHERE id = propertyId] *)
Definition updateLastSync (propertyId : string) : Async unit :=
  t <- now ;;
  fun w =>
    (Returned tt,
     {| properties := map (touch t propertyId) (properties w);
        bookings := bookings w; generated := generated w;
        requests := requests w; clockReads := clockReads w |}).

(** The [WHERE] clause of the lookup: [property_id = propertyId AND
    external_id = uid]. A [NULL] external id matches nothing. *)
Definition matchesKey (propertyId externalUid : string) (b : Booking) : bool :=
  (String.eqb (property_id b) propertyId &&
   match external_id b with
   | Some x => String.eqb x externalUid
   | None => false
   end)%bool.

(** [SELECT id FROM bookings WHERE property_id = ... AND external_id = ...] *)
Definition selectBookingIds (propertyId externalUid : string)
  : Async (list string) :=
  fun w =>
    (Returned (map booking_id
                 (filter (matchesKey propertyId externalUid) (bookings w))), w).

(** The [SET] clause of the update, applied to one row. *)
Definition applyUpdate (guestInfo : GuestInfo) (checkInDate checkOutDate nights : Z)
    (specialRequests : option string) (internalNotes : string) (t : Z)
    (b : Booking) : Booking :=
  {| booking_id := booking_id b;
     property_id := property_id b;
     guest_name := name guestInfo;
     guest_email := email guestInfo;
     guest_phone := phone guestInfo;
     number_of_guests := guests guestInfo;
     check_in_date := checkInDate;
     check_out_date := checkOutDate;
     nights_count := nights;
     base_amount := base_amount b;
     cleaning_fee := cleaning_fee b;
     taxes := taxes b;
     total_amount := total_amount b;
     security_deposit := security_deposit b;
     booking_status := booking_status b;
     payment_status := payment_status b;
     booking_source := booking_source b;
     confirmation_code := confirmation_code b;
     external_id := external_id b;
     special_requests := specialRequests;
     internal_notes := Some internalNotes;
     updated_at := t |}.

(** [UPDATE bookings SET ..., updated_at = NOW() WHERE id = bookingId] *)
Definition updateBooking (bookingId : string) (guestInfo : GuestInfo)
    (checkInDate checkOutDate nights : Z) (specialRequests : option string)
    (internalNotes : string) : Async unit :=
  t <- now ;;
  fun w =>
    (Returned tt,
     {| properties := properties w;
        bookings :=
          map (fun b =>
                 if String.eqb (booking_id b) bookingId
                 then applyUpdate guestInfo checkInDate checkOutDate nights
                        specialRequests internalNotes t b
                 else b) (bookings w);
        generated := generated w; requests := requests w;
        clockReads := clockReads w |}).

(** The row that [prisma.booking.create] inserts for the [data] of
    [processCalendarEvent]; the identifier and the row timestamp are the
    database's. *)
Definition newBooking (bookingId propertyId : string) (guestInfo : GuestInfo)
    (checkInDate checkOutDate nights : Z) (externalUid : string)
    (specialRequests : option string) (internalNotes : string) (t : Z)
  : Booking :=
  {| booking_id := bookingId;
     property_id := propertyId;
     guest_name := name guestInfo;
     guest_email := orUndefined (email guestInfo);
     guest_phone := orUndefined (phone guestInfo);
     number_of_guests := guests guestInfo;
     check_in_date := checkInDate;
     check_out_date := checkOutDate;
     nights_count := nights;
     base_amount := 0;
     cleaning_fee := 0;
     taxes := 0;
     total_amount := 0;
     security_deposit := 0;
     booking_status := "pending";
     payment_status := "pending";
     booking_source := Some "booking.com";
     confirmation_code := None;
     external_id := Some externalUid;
     special_requests := specialRequests;
     internal_notes := Some internalNotes;
     updated_at := t |}.

(** [prisma.booking.create({ data })] *)
Definition createBooking (propertyId : string) (guestInfo : GuestInfo)
    (checkInDate checkOutDate nights : Z) (externalUid : string)
    (specialRequests : option string) (internalNotes : string) : Async unit :=
  t <- now ;;
  fun w =>
    (Returned tt,
     {| properties := properties w;
        bookings :=
          bookings w ++
          [newBooking (uuid rt (generated w)) propertyId guestInfo checkInDate
             checkOutDate nights externalUid specialRequests internalNotes t];
        generated := S (generated w); requests := requests w;
        clockReads := clockReads w |}).

(** *** parseICalData *)

(** The [organizer] of the event that is pushed. *)
Definition organizerOf (o : option OrganizerField) : string :=
  match o with
  | Some (OrganizerText s) => s
  | Some (OrganizerObject cn) => orElse cn ""
  | None => ""
  end.

(** The body of the [for ... in] loop of [parseICalData]. *)
Fixpoint collectEvents (parsed : list (string * Component))
    (events : list CalendarEvent) : list CalendarEvent :=
  match parsed with
  | [] => events
  | (_, vevent) :: more =>
      if String.eqb (v_type vevent) "VEVENT" then
        match v_uid vevent, v_start vevent, v_end vevent with
        | Some u, Some s, Some e =>
            if truthy u then
              collectEvents more
                (events ++
                 [{| uid := u;
                     summary := orElse (v_summary vevent) "Booking";
                     description := Some (orElse (v_description vevent) "");
                     start := s;
                     end_ := e;
                     location := Some (orElse (v_location vevent) "");
                     organizer := Some (organizerOf (v_organizer vevent)) |}])
            else collectEvents more events
        | _, _, _ => collectEvents more events
        end
      else collectEvents more events
  end.

Definition parseICalData (icalData : string) : Outcome (list CalendarEvent) :=
  match parseICS rt icalData with
  | Returned parsed => Returned (collectEvents parsed [])
  | Thrown msg => Thrown ("Failed to parse iCal data: " ++ msg)
  end.

(** *** downloadICalData *)

Definition downloadICalData (url : string) : Async (list CalendarEvent) :=
  tryCatch
    (response <- axios_get url ;;
     if negb (fst response =? 200)
     then throw ("Failed to download calendar: HTTP " ++ showZ (fst response))
     else lift (parseICalData (snd response)))
    (fun msg => throw ("Failed to download iCal data: " ++ msg)).

(** *** processCalendarEvent *)

(** The [result] object is passed in and handed back: the function mutates
    it only in its last statement, after every [await]. *)
Definition processCalendarEvent (propertyId : string) (event : CalendarEvent)
    (result : SyncResult) : Async SyncResult :=
  existingBookings <- selectBookingIds propertyId (uid event) ;;
  let existingBooking := List.head existingBookings in
  let checkInDate := start event in
  let checkOutDate := end_ event in
  let nights := ceilDiv (checkOutDate - checkInDate) msPerDay in
  if nights <=? 0 then
    ret (pushError result ("Invalid date range for event " ++ uid event))
  else
    let guestInfo := extractGuestInfo event in
    match existingBooking with
    | Some bookingId =>
        stamp <- now ;;
        updateBooking bookingId guestInfo checkInDate checkOutDate nights
          (orUndefined (description event))
          ("Updated from calendar sync on " ++ toISOString rt stamp) ;;;
        ret (countUpdated result)
    | None =>
        stamp <- now ;;
        let internalNotes :=
          if isPlaceholder guestInfo
          then "[PLACEHOLDER] Calendar blocked date - imported from calendar sync on "
               ++ toISOString rt stamp
          else "Imported from calendar sync on " ++ toISOString rt stamp in
        createBooking propertyId guestInfo checkInDate checkOutDate nights
          (uid event) (orUndefined (description event)) internalNotes ;;;
        ret (countCreated result)
    end.

(** *** syncPropertyCalendarWithUrl *)

(** The [for ... of] loop over the events, with its [try]/[catch]. *)
Fixpoint processEvents (propertyId : string) (events : list CalendarEvent)
    (result : SyncResult) : Async SyncResult :=
  match events with
  | [] => ret result
  | event :: more =>
      result' <- tryCatch (processCalendarEvent propertyId event result)
                   (fun msg =>
                      ret (pushError result
                             ("Error processing event " ++ uid event ++ ": " ++ msg))) ;;
      processEvents propertyId more result'
  end.

(** Inside the [try] only [downloadICalData] can throw, and it does so
    before [result] has been written to: the handler sees the fresh
    [result]. *)
Definition syncPropertyCalendarWithUrl (propertyId icalUrl : string)
  : Async SyncResult :=
  let result := newResult in
  tryCatch
    (found <- selectProperty propertyId ;;
     match found with
     | [] => ret (pushError result "Property not found")
     | _ :: _ =>
         events <- downloadICalData icalUrl ;;
         result' <- processEvents propertyId events result ;;
         updateLastSync propertyId ;;;
         ret (finish result')
     end)
    (fun msg => ret (pushError result ("Sync failed: " ++ msg))).

(** *** syncPropertyCalendar *)

(** The call of [syncPropertyCalendarWithUrl] is returned without an
    [await]; it never throws, so it makes no difference that the [catch]
    would not see it. *)
Definition syncPropertyCalendar (propertyId : string) : Async SyncResult :=
  let result := newResult in
  tryCatch
    (found <- selectProperty propertyId ;;
     match found with
     | [] => ret (pushError result "Property not found")
     | property :: _ =>
         match sync_enabled property, orUndefined (ical_url property) with
         | true, Some url => syncPropertyCalendarWithUrl propertyId url
         | _, _ =>
             ret (pushError result "Calendar sync is not enabled for this property")
         end
     end)
    (fun msg => ret (pushError result msg)).

(** *** syncAllProperties and testCalendarUrl *)

Fixpoint syncEach (found : list Property) (results : list SyncResult)
  : Async (list SyncResult) :=
  match found with
  | [] => ret results
  | property :: more =>
      result <- syncPropertyCalendar (p_id property) ;;
      syncEach more (results ++ [result])
  end.

Definition syncAllProperties : Async (list SyncResult) :=
  found <- selectSyncedProperties ;;
  syncEach found [].

Record UrlTest : Type := {
  valid : bool;
  eventCount : nat;
  error : option string
}.

Definition testCalendarUrl (url : string) : Async UrlTest :=
  tryCatch
    (events <- downloadICalData url ;;
     ret {| valid := true; eventCount := List.length events; error := None |})
    (fun msg => ret {| valid := false; eventCount := 0%nat; error := Some msg |}).

End CalendarSyncService.

(** ** The scheduler

    [CalendarScheduler] keeps its state in two static fields; here the
    state is a value that [start] and [stop] take and hand back. What the
    scheduler writes to the console is left out. *)

Module CalendarScheduler.

(** The task that [cron.schedule] returns. *)
Record ScheduledTask : Type := {
  cronExpression : string;
  started : bool
}.

Record SchedulerState : Type := {
  isRunning : bool;
  task : option ScheduledTask
}.

Section Scheduler.

Variable rt : Runtime.

Local Open Scope async_scope.

(** The body of the scheduled job, which is also the initial sync of
    [start]: a bulk sync inside [try]/[catch]. *)
Definition scheduledSync : Async unit :=
  tryCatch (results <- syncAllProperties rt ;; ret tt) (fun _ => ret tt).

Definition start (s : SchedulerState) : Async SchedulerState :=
  if isRunning s then ret s
  else
    (scheduledSync ;;;
     ret {| isRunning := true;
            task := Some {| cronExpression := "0 */2 * * *"; started := true |} |}).

Definition stop (s : SchedulerState) : SchedulerState :=
  {| isRunning := false; task := None |}.

Definition getStatus (s : SchedulerState) : bool * string :=
  (isRunning s, if isRunning s then "Every 2 hours" else "Not scheduled").

End Scheduler.

End CalendarScheduler.

(** ** The calendar routes (routes/calendar.ts)

    A handler takes the parts of the request it reads and returns the
    status code and the body it sends; [res.json] without [res.status]
    sends 200. *)

(** The body of an answer of [POST /sync/:propertyId]. *)
Inductive SyncBody : Type :=
| SyncOutcome (result : SyncResult)
| SyncRefused (reason : string).

(** The body of an answer of [POST /test-url]. *)
Inductive TestUrlBody : Type :=
| UrlValid (events : nat) (note : string)
| UrlInvalid (reason : string).

(** The number of matches of a global pattern that is the plain,
    non-empty [word] (here [/BEGIN:VEVENT/g]) in [s]: a match at the head
    is counted and the search goes on after it; [skip] characters of an
    earlier match are still to be passed. *)
Fixpoint countMatches (skip : nat) (word s : string) : nat :=
  match s with
  | EmptyString => O
  | String _ t =>
      match skip with
      | S k => countMatches k word t
      | O =>
          if startsWith s word
          then S (countMatches (String.length word - 1) word t)
          else countMatches 0 word t
      end
  end.

Section CalendarRoutes.

Variable rt : Runtime.

(** [new URL(icalUrl)] succeeds. *)
Variable isUrl : string -> bool.

(** A failure of the transport with this message is the one axios raises
    with the code [ECONNABORTED]. *)
Variable isAborted : string -> bool.

(** [typeof response.data === 'string']: axios hands the body over as
    text; it does not when the body is a JSON document. *)
Variable isText : string -> bool.

Local Open Scope async_scope.

(** [POST /sync/:propertyId] *)
Definition postSync (propertyId : string) (icalUrl : option string)
  : Async (Z * SyncBody) :=
  tryCatch
    (if negb (truthy propertyId) then
       ret (400, SyncRefused "Property ID is required")
     else
       match orUndefined icalUrl with
       | None => ret (400, SyncRefused "iCal URL is required")
       | Some url =>
           result <- syncPropertyCalendarWithUrl rt propertyId url ;;
           ret (200, SyncOutcome result)
       end)
    (fun msg => ret (500, SyncRefused msg)).

(** [POST /test-url]. The handler sends its own request; its [catch]
    reads the code and the response of the axios error, which here are
    the cases of the answer of the network: an error without a response
    and without the code of a timeout is answered with its message. *)
Definition postTestUrl (icalUrl : option string) : Async (Z * TestUrlBody) :=
  match orUndefined icalUrl with
  | None => ret (400, UrlInvalid "iCal URL is required")
  | Some url =>
      if negb (isUrl url) then ret (400, UrlInvalid "Invalid URL format")
      else
        fun w =>
          let w' := {| properties := properties w; bookings := bookings w;
                       generated := generated w;
                       requests := (requests w ++ [url])%list;
                       clockReads := clockReads w |} in
          match network rt (List.length (requests w)) url with
          | HttpResponse status data =>
              if ((200 <=? status) && (status <? 300))%bool then
                if (negb (isText data) || negb (includes data "BEGIN:VCALENDAR"))%bool then
                  (Returned (200, UrlInvalid "URL does not return valid iCal data"), w')
                else
                  let eventCount := countMatches 0 "BEGIN:VEVENT" data in
                  (Returned
                     (200, UrlValid eventCount
                             ("Valid iCal URL with "
                              ++ showZ (Z.of_nat eventCount) ++ " events")), w')
              else if status =? 404 then
                (Returned (200, UrlInvalid "URL not found (404)"), w')
              else if ((negb (status =? 0)) && (400 <=? status))%bool then
                (Returned (200, UrlInvalid ("HTTP error: " ++ showZ status)), w')
              else
                (Returned
                   (200, UrlInvalid ("Request failed with status code "
                                     ++ showZ status)), w')
          | HttpFailure msg =>
              if isAborted msg then
                (Returned (200, UrlInvalid "URL request timed out"), w')
              else (Returned (200, UrlInvalid msg), w')
          | HttpUnsent msg => (Returned (200, UrlInvalid msg), w)
          end
  end.

End CalendarRoutes.

(** * The vocabulary of the statements *)

(** ** Summaries *)

Definition closureKeywords : list string :=
  ["closed"; "blocked"; "unavailable"; "not available"].

(** A summary contains a keyword case-insensitively when some stretch of
    it lower-cases to the keyword. *)
Definition containsKeyword (s : string) : Prop :=
  exists kw pre w post,
    In kw closureKeywords /\ s = pre ++ w ++ post /\ toLowerCase w = kw.

(** ** Runs of a class, words without case, the leftmost match *)

(** The longest prefix of [s] inside the class [p], and what follows. *)
Fixpoint span (p : ascii -> bool) (s : string) : string * string :=
  match s with
  | String c t =>
      if p c then let '(a, b) := span p t in (String c a, b) else (EmptyString, s)
  | EmptyString => (EmptyString, EmptyString)
  end.

Fixpoint allOf (p : ascii -> bool) (s : string) : bool :=
  match s with
  | String c t => (p c && allOf p t)%bool
  | EmptyString => true
  end.

(** [s] does not begin with a character of the class. *)
Definition stopsAt (p : ascii -> bool) (s : string) : bool :=
  match s with
  | String c _ => negb (p c)
  | EmptyString => true
  end.

Fixpoint drop (n : nat) (s : string) : string :=
  match n, s with
  | S n', String _ t => drop n' t
  | _, _ => s
  end.

(** [s] begins with the word [w], letters compared without case. *)
Fixpoint startsWithI (s w : string) {struct w} : bool :=
  match w, s with
  | EmptyString, _ => true
  | String _ _, EmptyString => false
  | String a w', String b s' =>
      (Ascii.eqb (foldCase a) (foldCase b) && startsWithI s' w')%bool
  end.

Fixpoint foldCases (s : string) : string :=
  match s with
  | String c t => String (foldCase c) (foldCases t)
  | EmptyString => EmptyString
  end.

(** A continuation that cannot go on from a character of the class. *)
Definition failsOn (p : ascii -> bool) (k : cont) : Prop :=
  forall i c t g, p c = true -> k (MState i (String c t) g) = None.

(** The leftmost search, given what one attempt at an index yields. *)
Fixpoint firstAt (at_ : string -> option string) (s : string) : option string :=
  match at_ s with
  | Some a => Some a
  | None =>
      match s with
      | String _ t => firstAt at_ t
      | EmptyString => None
      end
  end.

(** ** The pattern of the guest count *)

(** What [guestRegex] yields when it is tried at the head of [s]: the
    digits there, when white space and then the word "guest" follow. *)
Definition guestAt (s : string) : option string :=
  let ds := fst (span isDigit s) in
  let after := snd (span isWhiteSpace (snd (span isDigit s))) in
  if (Nat.leb 1 (String.length ds) && startsWithI after "guest")%bool
  then Some ds else None.

(** The parts of [guestRegex] that are still to match once the white
    space, the digits, and the group have been passed. *)
Definition optionalS : regex :=
  opt (fun d => Ascii.eqb (foldCase "s") (foldCase d)).

Definition guestWordCont : cont :=
  fun y => run (Cat (wordI "guest") optionalS) y Some.

Definition guestSpaceCont : cont :=
  fun y => run (Cat (star isWhiteSpace) (Cat (wordI "guest") optionalS)) y Some.

Definition guestDigitsCont (i : nat) (s : string) : cont :=
  fun y => guestSpaceCont (MState (pos y) (rest y) (Some (take (pos y - i) s))).

(** [s] holds, right after [pre], the digits [ds], then white space (maybe
    none), then the word "guest" in any case: an occurrence of the pattern
    "<N> guest(s)" at the index [length pre], with [N] written [ds]. *)
Definition guestPatternAt (s pre ds : string) : Prop :=
  exists ws g post,
    s = pre ++ ds ++ ws ++ g ++ post /\
    ds <> "" /\
    allOf isDigit ds = true /\
    allOf isWhiteSpace ws = true /\
    foldCases g = "guest".

(** The occurrence at [pre] is the leftmost one of [s]. *)
Definition leftmostGuestPattern (s pre ds : string) : Prop :=
  guestPatternAt s pre ds /\
  forall pre' ds', guestPatternAt s pre' ds' ->
                   (String.length pre <= String.length pre')%nat.

(** A check, by computation, that no occurrence of the pattern begins at
    one of the first [n] indices of [s]. *)
Fixpoint noGuestBefore (n : nat) (s : string) : bool :=
  match n with
  | O => true
  | S n' =>
      match guestAt s with
      | Some _ => false
      | None =>
          match s with
          | String _ t => noGuestBefore n' t
          | EmptyString => true
          end
      end
  end.

(** ** Entries of a calendar *)

(** An entry the parser keeps: an event with an id, a start and an end. *)
Definition isComplete (v : Component) : bool :=
  (String.eqb (v_type v) "VEVENT" &&
   match v_uid v with Some u => truthy u | None => false end &&
   match v_start v with Some _ => true | None => false end &&
   match v_end v with Some _ => true | None => false end)%bool.

(** The entry has no summary: the property is absent, or empty. *)
Definition lacksSummary (v : Component) : bool :=
  match v_summary v with
  | Some s => negb (truthy s)
  | None => true
  end.

(** The event is the one made from the entry [v]. *)
Definition madeFrom (v : Component) (e : CalendarEvent) : Prop :=
  v_type v = "VEVENT" /\
  v_uid v = Some (uid e) /\
  v_start v = Some (start e) /\
  v_end v = Some (end_ e) /\
  summary e = orElse (v_summary v) "Booking" /\
  description e = Some (orElse (v_description v) "") /\
  location e = Some (orElse (v_location v) "") /\
  organizer e = Some (organizerOf (v_organizer v)).

(** ** Worlds *)

(** The rows that the lookup of [processCalendarEvent] finds. *)
Definition existingFor (propertyId externalUid : string) (w : World)
  : list Booking :=
  filter (matchesKey propertyId externalUid) (bookings w).


(** The events with a valid date range. *)
Definition validEvents (events : list CalendarEvent) : list CalendarEvent :=
  filter (fun e => 0 <? nightsOf e) events.

(** The row of the property that the service reads. *)
Definition storedProperty (propertyId : string) (w : World) : option Property :=
  List.head (filter (fun p => String.eqb (p_id p) propertyId) (properties w)).

(** The world once one more request has been logged. *)
Definition afterRequest (url : string) (w : World) : World :=
  {| properties := properties w; bookings := bookings w;
     generated := generated w; requests := (requests w ++ [url])%list;
     clockReads := clockReads w |}.

(** The world once axios has been asked for [url] and has got [answer]:
    a request that was not sent is not logged. *)
Definition afterAnswer (answer : HttpOutcome) (url : string) (w : World)
  : World :=
  match answer with
  | HttpUnsent _ => w
  | _ => afterRequest url w
  end.

(** The world once [last_sync_at] of the property has been set. *)
Definition afterTouch (rt : Runtime) (propertyId : string) (w : World) : World :=
  {| properties := map (touch (clock rt (clockReads w)) propertyId) (properties w);
     bookings := bookings w; generated := generated w;
     requests := requests w; clockReads := S (clockReads w) |}.

(** The world after an update of the row [bookingId] for [event]. *)
Definition afterUpdate (rt : Runtime) (bookingId : string)
    (event : CalendarEvent) (w : World) : World :=
  {| properties := properties w;
     bookings :=
       map (fun b =>
              if String.eqb (booking_id b) bookingId
              then applyUpdate (extractGuestInfo event) (start event)
                     (end_ event) (nightsOf event)
                     (orUndefined (description event))
                     ("Updated from calendar sync on "
                      ++ toISOString rt (clock rt (clockReads w)))
                     (clock rt (S (clockReads w))) b
              else b) (bookings w);
     generated := generated w;
     requests := requests w;
     clockReads := S (S (clockReads w)) |}.

(** The notes of a booking that is created for [event]. *)
Definition importNotes (rt : Runtime) (event : CalendarEvent) (w : World)
  : string :=
  if isPlaceholder (extractGuestInfo event)
  then "[PLACEHOLDER] Calendar blocked date - imported from calendar sync on "
       ++ toISOString rt (clock rt (clockReads w))
  else "Imported from calendar sync on "
       ++ toISOString rt (clock rt (clockReads w)).

(** The row that is created for [event]. *)
Definition createdFor (rt : Runtime) (propertyId : string)
    (event : CalendarEvent) (w : World) : Booking :=
  newBooking (uuid rt (generated w)) propertyId (extractGuestInfo event)
    (start event) (end_ event) (nightsOf event) (uid event)
    (orUndefined (description event)) (importNotes rt event w)
    (clock rt (S (clockReads w))).

(** The world after the creation of a booking for [event]. *)
Definition afterCreate (rt : Runtime) (propertyId : string)
    (event : CalendarEvent) (w : World) : World :=
  {| properties := properties w;
     bookings := bookings w ++ [createdFor rt propertyId event w];
     generated := S (generated w);
     requests := requests w;
     clockReads := S (S (clockReads w)) |}.

(** What [downloadICalData] returns, as a function of the answer of the
    network. *)
Definition fetchedFrom (rt : Runtime) (answer : HttpOutcome)
  : Outcome (list CalendarEvent) :=
  match answer with
  | HttpResponse status data =>
      if ((200 <=? status) && (status <? 300))%bool then
        if status =? 200 then
          match parseICS rt data with
          | Returned parsed => Returned (collectEvents parsed [])
          | Thrown msg =>
              Thrown ("Failed to download iCal data: "
                      ++ "Failed to parse iCal data: " ++ msg)
          end
        else Thrown ("Failed to download iCal data: "
                     ++ "Failed to download calendar: HTTP " ++ showZ status)
      else Thrown ("Failed to download iCal data: "
                   ++ "Request failed with status code " ++ showZ status)
  | HttpFailure msg => Thrown ("Failed to download iCal data: " ++ msg)
  | HttpUnsent msg => Thrown ("Failed to download iCal data: " ++ msg)
  end.

(** ** What an update writes and what it keeps *)

(** The fields of a booking that a calendar sync never writes once the
    booking exists: its identity and key, the amounts, the two statuses,
    the source and the confirmation code. *)
Definition sameOutsideSync (b b' : Booking) : Prop :=
  booking_id b' = booking_id b /\
  property_id b' = property_id b /\
  external_id b' = external_id b /\
  base_amount b' = base_amount b /\
  cleaning_fee b' = cleaning_fee b /\
  taxes b' = taxes b /\
  total_amount b' = total_amount b /\
  security_deposit b' = security_deposit b /\
  booking_status b' = booking_status b /\
  payment_status b' = payment_status b /\
  booking_source b' = booking_source b /\
  confirmation_code b' = confirmation_code b.

(** The fields that an update for [event] writes, at the clock reading
    [n]. *)
Definition syncedFrom (rt : Runtime) (event : CalendarEvent) (n : nat)
    (b' : Booking) : Prop :=
  guest_name b' = name (extractGuestInfo event) /\
  guest_email b' = email (extractGuestInfo event) /\
  guest_phone b' = phone (extractGuestInfo event) /\
  number_of_guests b' = guests (extractGuestInfo event) /\
  check_in_date b' = start event /\
  check_out_date b' = end_ event /\
  nights_count b' = nightsOf event /\
  special_requests b' = orUndefined (description event) /\
  internal_notes b' =
    Some ("Updated from calendar sync on " ++ toISOString rt (clock rt n)) /\
  updated_at b' = clock rt (S n).

(** ** Sample data *)

Definition eventWithSummary (s : string) : CalendarEvent :=
  {| uid := "evt-1"; summary := s; description := None;
     start := 0; end_ := 3 * msPerDay;
     location := None; organizer := None |}.

(** A table with one booking, made by an earlier sync of the event
    "evt-1" of the property "prop-1". *)
Definition sampleBooking : Booking :=
  {| booking_id := "bk-1"; property_id := "prop-1";
     guest_name := "Jane Roe"; guest_email := None; guest_phone := None;
     number_of_guests := 2;
     check_in_date := 0; check_out_date := 3 * msPerDay; nights_count := 3;
     base_amount := 45000; cleaning_fee := 5000; taxes := 4000;
     total_amount := 54000; security_deposit := 10000;
     booking_status := "confirmed"; payment_status := "paid";
     booking_source := Some "booking.com"; confirmation_code := None;
     external_id := Some "evt-1"; special_requests := None;
     internal_notes := Some "Imported from calendar sync on 0";
     updated_at := 0 |}.

Definition sampleProperty : Property :=
  {| p_id := "prop-1"; p_name := "Cozy Downtown Apartment";
     ical_url := Some "https://example.org/cal.ics"; sync_enabled := true;
     user_id := "user-1"; last_sync_at := None |}.

Definition sampleWorld : World :=
  {| properties := [sampleProperty]; bookings := [sampleBooking];
     generated := 1; requests := []; clockReads := 0 |}.

Definition sampleEntry (u : string) (s : option string) (a b : Z) : Component :=
  {| v_type := "VEVENT"; v_uid := Some u; v_start := Some a; v_end := Some b;
     v_summary := s; v_description := None; v_location := None;
     v_organizer := None |}.

(** A runtime to run the service on examples: a document is the calendar
    below when it holds "BEGIN:VCALENDAR" and has no entry otherwise. *)
Definition sampleCalendar : list (string * Component) :=
  [("evt-1", sampleEntry "evt-1" (Some "Jane Roe") 0 (3 * msPerDay));
   ("0c1f", {| v_type := "VEVENT"; v_uid := None;
               v_start := Some 0; v_end := Some msPerDay;
               v_summary := Some "No id"; v_description := None;
               v_location := None; v_organizer := None |});
   ("evt-2", sampleEntry "evt-2" None msPerDay (2 * msPerDay))].

Definition sampleRuntime : Runtime :=
  {| parseICS := fun text =>
       if includes text "BEGIN:VCALENDAR"
       then Returned sampleCalendar
       else Returned [];
     toISOString := showZ;
     clock := fun n => 1000 * Z.of_nat n;
     network := fun _ url =>
       if String.eqb url "https://example.org/cal.ics"
       then HttpResponse 200 "BEGIN:VCALENDAR ... END:VCALENDAR"
       else if String.eqb url "https://example.org/page.html"
       then HttpResponse 200 "<html><body>Sign in</body></html>"
       else HttpFailure "timeout of 30000ms exceeded";
     uuid := fun n => "bk-" ++ showZ (Z.of_nat (S n)) |}.

Definition sampleEvent (a b : Z) : CalendarEvent :=
  {| uid := "evt-1"; summary := "Jane Roe - 3 guests"; description := None;
     start := a; end_ := b; location := None; organizer := None |}.

Definition disabledProperty : Property :=
  {| p_id := "prop-9"; p_name := "Lake House";
     ical_url := Some "https://example.org/cal.ics"; sync_enabled := false;
     user_id := "user-1"; last_sync_at := None |}.

Definition disabledWorld : World :=
  {| properties := [sampleProperty; disabledProperty];
     bookings := [sampleBooking];
     generated := 1; requests := []; clockReads := 0 |}.

(** A feed of another platform, and a runtime in which it serves the
    sample calendar. *)
Definition airbnbFeed : string :=
  "https://www.airbnb.com/calendar/ical/42.ics".

Definition airbnbRuntime : Runtime :=
  {| parseICS := parseICS sampleRuntime;
     toISOString := showZ;
     clock := clock sampleRuntime;
     network := fun _ url =>
       if String.eqb url airbnbFeed
       then HttpResponse 200 "BEGIN:VCALENDAR ... END:VCALENDAR"
       else HttpFailure "getaddrinfo ENOTFOUND";
     uuid := uuid sampleRuntime |}.

(** A calendar whose one entry has no DTEND, and what node-ical hands over
    for it: the entry has the start, 2024-01-05T10:00:00Z, as its end. *)
Definition lf : string := String (ascii_of_nat 10) "".

Definition endlessCalendar : string :=
  "BEGIN:VCALENDAR" ++ lf ++ "BEGIN:VEVENT" ++ lf ++ "UID:evt-9" ++ lf
  ++ "DTSTART:20240105T100000Z" ++ lf ++ "SUMMARY:Jane Roe" ++ lf
  ++ "END:VEVENT" ++ lf ++ "END:VCALENDAR" ++ lf.

Definition endlessEntry : Component :=
  sampleEntry "evt-9" (Some "Jane Roe") 1704448800000 1704448800000.

Definition endlessRuntime : Runtime :=
  {| parseICS := fun text =>
       if String.eqb text endlessCalendar
       then Returned [("evt-9", endlessEntry)]
       else Returned [];
     toISOString := showZ;
     clock := clock sampleRuntime;
     network := fun _ _ => HttpResponse 200 endlessCalendar;
     uuid := uuid sampleRuntime |}.

(** ** What a pattern matches *)

(** The number [n] of repetitions is allowed by the upper bound. *)
Definition withinBound (hi : option nat) (n : nat) : Prop :=
  match hi with
  | Some h => (n <= h)%nat
  | None => True
  end.

(** [Matches r i a after g g']: at the index [i], with the text [after]
    following, the pattern [r] matches the text [a] and takes the capture
    from [g] to [g']. *)
Inductive Matches
  : regex -> nat -> string -> string -> option string -> option string -> Prop :=
| MatchesEps i after g : Matches Eps i "" after g g
| MatchesChr p c i after g :
    p c = true -> Matches (Chr p) i (String c "") after g g
| MatchesRep p lo hi a i after g :
    allOf p a = true -> (lo <= String.length a)%nat ->
    withinBound hi (String.length a) ->
    Matches (Rep p lo hi) i a after g g
| MatchesCat r1 r2 a b i after g g1 g2 :
    Matches r1 i a (b ++ after) g g1 ->
    Matches r2 (i + String.length a) b after g1 g2 ->
    Matches (Cat r1 r2) i (a ++ b) after g g2
| MatchesAltL r1 r2 a i after g g' :
    Matches r1 i a after g g' -> Matches (Alt r1 r2) i a after g g'
| MatchesAltR r1 r2 a i after g g' :
    Matches r2 i a after g g' -> Matches (Alt r1 r2) i a after g g'
| MatchesGrp r a i after g g1 :
    Matches r i a after g g1 -> Matches (Grp r) i a after g (Some a)
| MatchesBol after g : Matches Bol 0 "" after g g
| MatchesEol i g : Matches Eol i "" "" g g.

(** The text [m] reads as an address: a local part, "@", a domain, ".",
    and at least two letters. *)
Definition emailShaped (m : string) : Prop :=
  exists loc dom tld,
    m = loc ++ "@" ++ dom ++ "." ++ tld /\
    loc <> "" /\ allOf isEmailLocal loc = true /\
    dom <> "" /\ allOf isEmailDomain dom = true /\
    (2 <= String.length tld)%nat /\ allOf isLetter tld = true.

(** The text [d] holds one of the labels "phone", "tel" and "mobile" in
    any case, a colon, white space, and then a run of telephone characters
    whose trimmed text is [p]. *)
Definition phoneLabelled (d p : string) : Prop :=
  exists pre label ws digits post,
    d = pre ++ label ++ ":" ++ ws ++ digits ++ post /\
    (foldCases label = "phone" \/ foldCases label = "tel" \/
     foldCases label = "mobile") /\
    allOf isWhiteSpace ws = true /\
    allOf isPhoneChar digits = true /\
    p = trim digits.

(** The class of [nameRegex]: a letter or white space. *)
Definition isNameChar (c : ascii) : bool := (isLetter c || isWhiteSpace c)%bool.

(** ** Counters, row ids and keys *)

(** Row ids are a key of the bookings table. *)
Definition uniqueIds (w : World) : Prop :=
  NoDup (map booking_id (bookings w)).

(** The row belongs to a calendar of [propertyId]: it is of that property
    and has an external id. *)
Definition syncedRowOf (propertyId : string) (b : Booking) : bool :=
  (String.eqb (property_id b) propertyId &&
   match external_id b with Some _ => true | None => false end)%bool.

(** The properties that [syncAllProperties] selects. *)
Definition selectedForSync (w : World) : list Property :=
  filter (fun p =>
            (sync_enabled p &&
             match ical_url p with Some _ => true | None => false end)%bool)
         (properties w).

(** The events with an invalid date range. *)
Definition invalidEvents (events : list CalendarEvent) : list CalendarEvent :=
  filter (fun e => nightsOf e <=? 0) events.

(** The error that the pass records for an event with an invalid date
    range. *)
Definition rangeError (e : CalendarEvent) : string :=
  "Invalid date range for event " ++ uid e.

(** The columns of a property that decide whether and from where it is
    synced. *)
Definition syncSettings (p : Property) : string * option string * bool :=
  (p_id p, ical_url p, sync_enabled p).

(** Some property of the table with the sync flag set is synced from
    [url], which is not empty. *)
Definition syncedFromUrl (w : World) (url : string) : Prop :=
  url <> "" /\
  exists p, In p (properties w) /\ sync_enabled p = true /\
            ical_url p = Some url.

(** The number of indices of [s] at which [word] starts. *)
Fixpoint occurrences (word s : string) : nat :=
  match s with
  | EmptyString => if startsWith s word then 1%nat else 0%nat
  | String _ t =>
      ((if startsWith s word then 1 else 0) + occurrences word t)%nat
  end.

(** ** More sample data *)

Definition describedEvent (s d : string) : CalendarEvent :=
  {| uid := "evt-7"; summary := s; description := Some d;
     start := 0; end_ := msPerDay; location := None; organizer := None |}.

(** A table with a manual booking of "prop-1" and a calendar booking of
    another property. *)
Definition manualBooking : Booking :=
  {| booking_id := "bk-7"; property_id := "prop-1";
     guest_name := "Walk In"; guest_email := None; guest_phone := None;
     number_of_guests := 1;
     check_in_date := 0; check_out_date := msPerDay; nights_count := 1;
     base_amount := 9000; cleaning_fee := 0; taxes := 0;
     total_amount := 9000; security_deposit := 0;
     booking_status := "confirmed"; payment_status := "paid";
     booking_source := Some "Direct"; confirmation_code := None;
     external_id := None; special_requests := None;
     internal_notes := None; updated_at := 0 |}.

Definition foreignBooking : Booking :=
  {| booking_id := "bk-8"; property_id := "prop-2";
     guest_name := "Other Guest"; guest_email := None; guest_phone := None;
     number_of_guests := 2;
     check_in_date := 0; check_out_date := msPerDay; nights_count := 1;
     base_amount := 0; cleaning_fee := 0; taxes := 0;
     total_amount := 0; security_deposit := 0;
     booking_status := "pending"; payment_status := "pending";
     booking_source := Some "booking.com"; confirmation_code := None;
     external_id := Some "evt-1"; special_requests := None;
     internal_notes := None; updated_at := 0 |}.

Definition mixedWorld : World :=
  {| properties := [sampleProperty; disabledProperty];
     bookings := [manualBooking; foreignBooking; sampleBooking];
     generated := 8; requests := []; clockReads := 0 |}.

(** * Properties *)

(** ** Strings *)

Section TextFacts.

Lemma append_empty_r (s : string) : s ++ "" = s.
Proof. induction s as [|c s IH]; simpl; congruence. Qed.

Lemma length_append (a b : string) :
  String.length (a ++ b) = (String.length a + String.length b)%nat.
Proof. induction a as [|x a IH]; simpl; congruence. Qed.

Lemma toLowerCase_append (a b : string) :
  toLowerCase (a ++ b) = toLowerCase a ++ toLowerCase b.
Proof. induction a as [|x a IH]; simpl; congruence. Qed.

Lemma startsWith_append (k t : string) : startsWith (k ++ t) k = true.
Proof.
  induction k as [|c k IH]; simpl.
  - reflexivity.
  - now rewrite Ascii.eqb_refl, IH.
Qed.

Lemma startsWith_split (s k : string) :
  startsWith s k = true -> exists t, s = k ++ t.
Proof.
  revert s; induction k as [|c k IH]; intros s H.
  - now exists s.
  - destruct s as [|d s]; simpl in H; [discriminate|].
    apply andb_true_iff in H as [Hc Hk].
    apply Ascii.eqb_eq in Hc; subst d.
    destruct (IH _ Hk) as [t ->]. now exists t.
Qed.

Lemma startsWith_includes (s k : string) :
  startsWith s k = true -> includes s k = true.
Proof. intros H. destruct s; simpl; now rewrite H. Qed.

(** [includes] is the substring relation. *)
Lemma includes_iff (s k : string) :
  includes s k = true <-> exists pre post, s = pre ++ k ++ post.
Proof.
  split.
  - induction s as [|c s IH]; simpl; intros H.
    + rewrite orb_false_r in H. apply startsWith_split in H as [t E].
      now exists "", t.
    + apply orb_true_iff in H as [H|H].
      * apply startsWith_split in H as [t E]. now exists "", t.
      * destruct (IH H) as (pre & post & ->). now exists (String c pre), post.
  - intros (pre & post & ->).
    induction pre as [|c pre IH]; simpl.
    + apply startsWith_includes, startsWith_append.
    + rewrite IH. apply orb_true_r.
Qed.

Lemma truthy_iff (s : string) : truthy s = true <-> s <> "".
Proof.
  unfold truthy. rewrite negb_true_iff. apply String.eqb_neq.
Qed.

Lemma includes_truthy (s k : string) :
  includes (toLowerCase s) k = true -> k <> "" -> truthy s = true.
Proof.
  intros H Hk. apply truthy_iff. intros ->. simpl in H.
  destruct k; [congruence | discriminate].
Qed.

End TextFacts.

(** ** The closure block list *)

Lemma toLowerCase_length (s : string) :
  String.length (toLowerCase s) = String.length s.
Proof. induction s as [|c s IH]; simpl; congruence. Qed.

(** Splitting a lower-cased string splits the string. *)
Lemma toLowerCase_split (s a b : string) :
  toLowerCase s = a ++ b ->
  exists sa sb, s = sa ++ sb /\ toLowerCase sa = a /\ toLowerCase sb = b.
Proof.
  revert s; induction a as [|x a IH]; intros s H.
  - now exists "", s.
  - destruct s as [|c s]; simpl in H; [discriminate|].
    injection H as Hx Hs.
    destruct (IH _ Hs) as (sa & sb & -> & Ha & Hb).
    exists (String c sa), sb. simpl. now rewrite Ha, Hx.
Qed.

Lemma isBlockedSummary_iff (s : string) :
  isBlockedSummary s = true <-> containsKeyword s.
Proof.
  unfold isBlockedSummary, containsKeyword, closureKeywords. split.
  - intros H. apply andb_true_iff in H as [_ H].
    assert (exists kw, In kw closureKeywords /\ includes (toLowerCase s) kw = true)
      as (kw & Hin & Hk).
    { unfold closureKeywords.
      repeat (apply orb_true_iff in H as [H|H]);
        try (eexists; split; [|exact H]; simpl; tauto).
      apply String.eqb_eq in H. exists "closed". split; [simpl; tauto|].
      rewrite H. reflexivity. }
    apply includes_iff in Hk as (a & b & Hk).
    apply toLowerCase_split in Hk as (sa & sb & -> & Ha & Hb).
    apply toLowerCase_split in Hb as (w & sc & -> & Hw & Hc).
    now exists kw, sa, w, sc.
  - intros (kw & pre & w & post & Hin & -> & Hw).
    assert (Hk : includes (toLowerCase (pre ++ w ++ post)) kw = true).
    { apply includes_iff. rewrite !toLowerCase_append, Hw. eauto. }
    assert (Hne : kw <> "").
    { simpl in Hin.
      destruct Hin as [<-|[<-|[<-|[<-|[]]]]]; discriminate. }
    rewrite (includes_truthy _ _ Hk Hne). simpl.
    simpl in Hin.
    destruct Hin as [<-|[<-|[<-|[<-|[]]]]]; rewrite Hk;
      repeat rewrite ?orb_true_r, ?orb_true_l; reflexivity.
Qed.

(** What the extractor returns on a summary of the block list. *)
Lemma extractGuestInfo_blocked (event : CalendarEvent) :
  isBlockedSummary (summary event) = true ->
  name (extractGuestInfo event) = "Blocked Period - Please Update" /\
  guests (extractGuestInfo event) = 1 /\
  isPlaceholder (extractGuestInfo event) = true.
Proof.
  intros H. unfold extractGuestInfo. rewrite H. simpl. auto.
Qed.

(** C2. A summary that contains one of the closure keywords, in any case
    and anywhere, gives the fixed name "Blocked Period - Please Update"
    (which contains "Blocked"), one guest and the placeholder flag, whatever
    else the summary holds; so does a summary that is "closed" in any case;
    and "John Doe - 2 guests" gives the name "John Doe", two guests and no
    placeholder flag. *)
Theorem closure_keyword_takes_precedence :
  (forall event : CalendarEvent,
      containsKeyword (summary event) ->
      name (extractGuestInfo event) = "Blocked Period - Please Update" /\
      includes (name (extractGuestInfo event)) "Blocked" = true /\
      guests (extractGuestInfo event) = 1 /\
      isPlaceholder (extractGuestInfo event) = true) /\
  (forall event : CalendarEvent,
      toLowerCase (summary event) = "closed" ->
      isPlaceholder (extractGuestInfo event) = true /\
      includes (name (extractGuestInfo event)) "Blocked" = true) /\
  (forall event : CalendarEvent,
      summary event = "John Doe - 2 guests" ->
      isPlaceholder (extractGuestInfo event) = false /\
      name (extractGuestInfo event) = "John Doe" /\
      guests (extractGuestInfo event) = 2).
Proof.
  assert (G : forall event, containsKeyword (summary event) ->
      name (extractGuestInfo event) = "Blocked Period - Please Update" /\
      includes (name (extractGuestInfo event)) "Blocked" = true /\
      guests (extractGuestInfo event) = 1 /\
      isPlaceholder (extractGuestInfo event) = true).
  { intros event H. apply isBlockedSummary_iff in H.
    destruct (extractGuestInfo_blocked event H) as (Hn & Hg & Hp).
    rewrite Hn. repeat split; auto. }
  split; [exact G|]. split.
  - intros event H.
    destruct (G event) as (_ & Hb & _ & Hp); [|now split].
    exists "closed", "", (summary event), "".
    rewrite append_empty_r. simpl. tauto.
  - intros event H. unfold extractGuestInfo. rewrite H.
    vm_compute. auto.
Qed.

Lemma closure_keyword_witness :
  isPlaceholder (extractGuestInfo (eventWithSummary "Owner BLOCKED (3 guests)")) = true /\
  isPlaceholder (extractGuestInfo (eventWithSummary "ClOsEd")) = true /\
  name (extractGuestInfo (eventWithSummary "John Doe - 2 guests")) = "John Doe".
Proof.
  destruct closure_keyword_takes_precedence as (A & B & C).
  split; [|split].
  - apply (A (eventWithSummary "Owner BLOCKED (3 guests)")).
    exists "blocked", "Owner ", "BLOCKED", " (3 guests)".
    vm_compute. tauto.
  - apply (B (eventWithSummary "ClOsEd")). vm_compute. reflexivity.
  - apply (C (eventWithSummary "John Doe - 2 guests")). reflexivity.
Defined.

(** ** The matcher on quantified classes and words *)

Section MatcherFacts.

Lemma span_append (p : ascii -> bool) (s : string) :
  fst (span p s) ++ snd (span p s) = s.
Proof.
  induction s as [|c t IH]; simpl; [reflexivity|].
  destruct (p c); [|reflexivity].
  destruct (span p t) as [a b]; simpl in *. now rewrite IH.
Qed.

Lemma span_allOf (p : ascii -> bool) (s : string) :
  allOf p (fst (span p s)) = true.
Proof.
  induction s as [|c t IH]; simpl; [reflexivity|].
  destruct (p c) eqn:E; [|reflexivity].
  destruct (span p t) as [a b]; simpl in *. now rewrite E, IH.
Qed.

(** [span] finds a split as soon as the left part is in the class and the
    right part does not go on in it. *)
Lemma span_unique (p : ascii -> bool) (a b : string) :
  allOf p a = true -> stopsAt p b = true -> span p (a ++ b) = (a, b).
Proof.
  intros Ha Hb. induction a as [|c a IH]; simpl in *.
  - destruct b as [|d b]; [reflexivity|]. simpl in Hb |- *.
    apply negb_true_iff in Hb. now rewrite Hb.
  - apply andb_true_iff in Ha as [Hc Ha]. now rewrite Hc, (IH Ha).
Qed.

Lemma take_append (a b : string) : take (String.length a) (a ++ b) = a.
Proof. induction a as [|c a IH]; simpl; [now destruct b | congruence]. Qed.

(** When what follows the quantifier cannot start inside the class, the
    only split that the backtracking can settle on is the longest one. *)
Lemma rep_longest (p : ascii -> bool) (k : cont) :
  failsOn p k ->
  forall s lo i g,
    rep p lo None i s g k =
    if Nat.leb lo (String.length (fst (span p s)))
    then k (MState (i + String.length (fst (span p s))) (snd (span p s)) g)
    else None.
Proof.
  intros Hk. induction s as [|c t IH]; intros lo i g; simpl.
  - rewrite Nat.add_0_r. now destruct lo.
  - destruct (p c) eqn:E; simpl.
    + rewrite IH. destruct (span p t) as [a b]; simpl.
      rewrite <- plus_n_Sm.
      destruct lo as [|lo]; simpl.
      * destruct (k (MState (S (i + String.length a)) b g)); [reflexivity|].
        now apply Hk.
      * destruct (Nat.leb lo (String.length a)); [|reflexivity].
        now destruct (k (MState (S (i + String.length a)) b g)).
    + rewrite Nat.add_0_r. now destruct lo.
Qed.

(** A quantifier that may match nothing, followed by nothing else, always
    succeeds and leaves the group alone. *)
Lemma rep_optional_last (p : ascii -> bool) :
  forall s hi i g, exists m, rep p 0 hi i s g Some = Some m /\ group1 m = g.
Proof.
  induction s as [|c t IH]; intros hi i g; simpl.
  - eauto.
  - destruct (p c && negb (exhausted hi))%bool; [|eauto].
    destruct (IH (decr hi) (S i) g) as (m & -> & Hm). eauto.
Qed.

Lemma run_wordI (w : string) :
  forall i s g k,
    run (wordI w) (MState i s g) k =
    if startsWithI s w
    then k (MState (i + String.length w) (drop (String.length w) s) g)
    else None.
Proof.
  induction w as [|a w IH]; intros i s g k; simpl.
  - rewrite Nat.add_0_r. now destruct s.
  - destruct s as [|b s]; simpl; [reflexivity|].
    destruct (Ascii.eqb (foldCase a) (foldCase b)); simpl; [|reflexivity].
    rewrite IH. now rewrite <- plus_n_Sm.
Qed.

Lemma startsWithI_iff (s w : string) :
  startsWithI s w = true <->
  exists g post, s = g ++ post /\ foldCases g = foldCases w.
Proof.
  revert s; induction w as [|a w IH]; intros s; simpl.
  - split; [intros _; now exists "", s|reflexivity].
  - destruct s as [|b s].
    + split; [discriminate|]. intros (g & post & E & F).
      destruct g; simpl in *; discriminate.
    + rewrite andb_true_iff, Ascii.eqb_eq, IH. split.
      * intros (Hc & g & post & -> & F).
        exists (String b g), post. simpl. now rewrite F, Hc.
      * intros (g & post & E & F).
        destruct g as [|c g]; simpl in *; [discriminate|].
        injection E as -> ->. injection F as Hc F. eauto.
Qed.

Lemma search_firstAt (r : regex) (at_ : string -> option string) :
  (forall i s,
      option_map group1 (run r (MState i s None) Some) = option_map Some (at_ s)) ->
  forall s i,
    option_map group1 (search r i s) = option_map Some (firstAt at_ s).
Proof.
  intros H. induction s as [|c t IH]; intros i; simpl.
  - specialize (H i ""). destruct (run r (MState i "" None) Some);
      destruct (at_ ""); simpl in *; congruence.
  - specialize (H i (String c t)).
    destruct (run r (MState i (String c t) None) Some);
      destruct (at_ (String c t)); simpl in *; try congruence; apply IH.
Qed.

End MatcherFacts.

(** ** The guest-count scan *)

Section GuestCount.

Lemma whiteSpace_not_g (c : ascii) :
  isWhiteSpace c = true -> Ascii.eqb (foldCase "g") (foldCase c) = false.
Proof.
  destruct c as [[] [] [] [] [] [] [] []]; vm_compute; congruence.
Qed.

Lemma digit_not_g (c : ascii) :
  isDigit c = true -> Ascii.eqb (foldCase "g") (foldCase c) = false.
Proof.
  destruct c as [[] [] [] [] [] [] [] []]; vm_compute; congruence.
Qed.

Lemma digit_not_whiteSpace (c : ascii) :
  isDigit c = true -> isWhiteSpace c = false.
Proof.
  destruct c as [[] [] [] [] [] [] [] []]; vm_compute; congruence.
Qed.

Lemma guestWordCont_eq (i : nat) (s : string) (g : option string) :
  guestWordCont (MState i s g) =
  if startsWithI s "guest"
  then run optionalS (MState (i + 5) (drop 5 s) g) Some
  else None.
Proof.
  unfold guestWordCont. change (run (Cat (wordI "guest") optionalS) (MState i s g) Some)
    with (run (wordI "guest") (MState i s g) (fun z => run optionalS z Some)).
  now rewrite run_wordI.
Qed.

Lemma guestWordCont_failsOn : failsOn isWhiteSpace guestWordCont.
Proof.
  intros i c t g H. rewrite guestWordCont_eq.
  change (startsWithI (String c t) "guest")
    with (Ascii.eqb (foldCase "g") (foldCase c) && startsWithI t "uest")%bool.
  now rewrite (whiteSpace_not_g c H).
Qed.

Lemma guestSpaceCont_eq (i : nat) (s : string) (g : option string) :
  guestSpaceCont (MState i s g) =
  guestWordCont (MState (i + String.length (fst (span isWhiteSpace s)))
        (snd (span isWhiteSpace s)) g).
Proof.
  unfold guestSpaceCont.
  change (run (Cat (star isWhiteSpace) (Cat (wordI "guest") optionalS)) (MState i s g) Some)
    with (rep isWhiteSpace 0 None i s g guestWordCont).
  now rewrite (rep_longest _ _ guestWordCont_failsOn).
Qed.

Lemma guestDigitsCont_failsOn (i : nat) (s : string) : failsOn isDigit (guestDigitsCont i s).
Proof.
  intros j c t g H. unfold guestDigitsCont. rewrite guestSpaceCont_eq. cbn [pos rest span].
  rewrite (digit_not_whiteSpace c H). cbn [fst snd].
  rewrite guestWordCont_eq.
  change (startsWithI (String c t) "guest")
    with (Ascii.eqb (foldCase "g") (foldCase c) && startsWithI t "uest")%bool.
  now rewrite (digit_not_g c H).
Qed.

(** One attempt of the pattern at an index captures what [guestAt] says. *)
Lemma run_guestRegex (i : nat) (s : string) :
  option_map group1 (run guestRegex (MState i s None) Some) =
  option_map Some (guestAt s).
Proof.
  change (run guestRegex (MState i s None) Some)
    with (rep isDigit 1 None i s None (guestDigitsCont i s)).
  rewrite (rep_longest _ _ (guestDigitsCont_failsOn i s)).
  unfold guestAt.
  destruct (Nat.leb 1 (String.length (fst (span isDigit s)))); [|reflexivity].
  unfold guestDigitsCont. cbn [pos rest]. rewrite guestSpaceCont_eq, guestWordCont_eq.
  destruct (startsWithI (snd (span isWhiteSpace (snd (span isDigit s)))) "guest");
    [|reflexivity].
  unfold optionalS, opt. cbn [run pos rest group1 andb].
  match goal with
  | |- context [rep ?p 0 ?hi ?j ?t ?g Some] =>
      destruct (rep_optional_last p t hi j g) as (m & -> & Hm)
  end.
  cbn [option_map]. rewrite Hm.
  replace (i + String.length (fst (span isDigit s)) - i)%nat
    with (String.length (fst (span isDigit s))) by lia.
  rewrite <- (span_append isDigit s) at 2.
  now rewrite take_append.
Qed.

(** The first match of the pattern in [s]. *)
Lemma exec_guestRegex (s : string) :
  exec guestRegex s = option_map Some (firstAt guestAt s).
Proof.
  unfold exec.
  pose proof (search_firstAt guestRegex guestAt run_guestRegex s 0%nat) as H.
  destruct (search guestRegex 0 s); destruct (firstAt guestAt s);
    simpl in *; congruence.
Qed.

End GuestCount.

Section GuestPattern.

Lemma folds_to_g (c : ascii) :
  foldCase c = "g"%char -> isDigit c = false /\ isWhiteSpace c = false.
Proof.
  destruct c as [[] [] [] [] [] [] [] []]; vm_compute; intros H;
    first [discriminate H | split; reflexivity].
Qed.

Lemma guest_word_head (g post : string) :
  foldCases g = "guest" ->
  stopsAt isDigit (g ++ post) = true /\ stopsAt isWhiteSpace (g ++ post) = true.
Proof.
  intros H. destruct g as [|c g]; [discriminate|].
  simpl in H. injection H as Hc _.
  destruct (folds_to_g c Hc) as [Hd Hw]. simpl. now rewrite Hd, Hw.
Qed.

Lemma guestAt_iff (s ds : string) :
  guestAt s = Some ds <-> guestPatternAt s "" ds.
Proof.
  unfold guestAt, guestPatternAt. split.
  - intros H.
    destruct (Nat.leb 1 (String.length (fst (span isDigit s)))) eqn:L;
      [|discriminate].
    destruct (startsWithI (snd (span isWhiteSpace (snd (span isDigit s)))) "guest")
      eqn:W; [|discriminate].
    injection H as <-.
    apply startsWithI_iff in W as (g & post & E & F).
    exists (fst (span isWhiteSpace (snd (span isDigit s)))), g, post.
    rewrite <- E, span_append, span_append, !span_allOf.
    repeat split; auto.
    intros Z. rewrite Z in L. discriminate.
  - intros (ws & g & post & -> & Hne & Hd & Hw & Hg).
    destruct (guest_word_head g post Hg) as [Sd Sw].
    assert (Sd' : stopsAt isDigit (ws ++ g ++ post) = true).
    { destruct ws as [|c ws]; [exact Sd|].
      simpl in Hw |- *. apply andb_true_iff in Hw as [Hc _].
      destruct (isDigit c) eqn:D; [|reflexivity].
      now rewrite (digit_not_whiteSpace c D) in Hc. }
    cbn [append]. rewrite (span_unique _ _ _ Hd Sd'). cbn [fst snd].
    rewrite (span_unique _ _ _ Hw Sw). cbn [fst snd].
    assert (W : startsWithI (g ++ post) "guest" = true).
    { apply startsWithI_iff. now exists g, post. }
    rewrite W.
    destruct ds; [congruence | reflexivity].
Qed.

Lemma guestPatternAt_cons (c : ascii) (s pre ds : string) :
  guestPatternAt (String c s) (String c pre) ds <-> guestPatternAt s pre ds.
Proof.
  unfold guestPatternAt. split.
  - intros (ws & g & post & E & H). simpl in E. injection E as E.
    exists ws, g, post. tauto.
  - intros (ws & g & post & -> & H). exists ws, g, post. simpl. tauto.
Qed.

Lemma guestPatternAt_prefix (s pre ds : string) :
  guestPatternAt s pre ds -> exists s0, s = pre ++ s0 /\ guestAt s0 = Some ds.
Proof.
  intros (ws & g & post & -> & H).
  exists (ds ++ ws ++ g ++ post). split; [reflexivity|].
  apply guestAt_iff. exists ws, g, post. simpl. tauto.
Qed.

(** The search returns the digits of the leftmost occurrence. *)
Lemma firstAt_leftmost (s pre ds : string) :
  leftmostGuestPattern s pre ds -> firstAt guestAt s = Some ds.
Proof.
  revert s. induction pre as [|c pre IH]; intros s [Hp Hl].
  - apply guestAt_iff in Hp. destruct s; cbn [firstAt]; now rewrite Hp.
  - destruct (guestPatternAt_prefix _ _ _ Hp) as (s0 & -> & _).
    cbn [append firstAt] in Hp |- *.
    destruct (guestAt (String c (pre ++ s0))) eqn:G.
    + apply guestAt_iff, Hl in G. simpl in G. lia.
    + apply IH. split.
      * now apply guestPatternAt_cons in Hp.
      * intros pre' ds' H'.
        apply (guestPatternAt_cons c) in H'. apply Hl in H'. simpl in H'. lia.
Qed.

(** Without any occurrence the search finds nothing. *)
Lemma firstAt_none (s : string) :
  (forall pre ds, ~ guestPatternAt s pre ds) -> firstAt guestAt s = None.
Proof.
  induction s as [|c s IH]; intros H; cbn [firstAt].
  - destruct (guestAt "") eqn:G; [|reflexivity].
    apply guestAt_iff in G. now apply H in G.
  - destruct (guestAt (String c s)) eqn:G.
    + apply guestAt_iff in G. now apply H in G.
    + apply IH. intros pre ds Hp.
      apply (H (String c pre) ds). now apply guestPatternAt_cons.
Qed.

(** Below 2^53 [parseInt] returns the number as it is written. *)
Lemma parseInt_small (ds : string) :
  mathInt ds < 2 ^ 53 -> parseInt ds = mathInt ds.
Proof.
  intros H. unfold parseInt, toDouble.
  apply Z.ltb_lt in H. now rewrite H.
Qed.

Lemma guestsFromSummary_leftmost (s pre ds : string) :
  leftmostGuestPattern s pre ds ->
  guestsFromSummary s = Z.max 1 (parseInt ds).
Proof.
  intros H. unfold guestsFromSummary.
  rewrite exec_guestRegex, (firstAt_leftmost _ _ _ H). simpl.
  destruct H as [(ws & g & post & _ & Hne & _) _].
  apply truthy_iff in Hne. now rewrite Hne.
Qed.

Lemma extractGuestInfo_not_blocked (event : CalendarEvent) :
  isBlockedSummary (summary event) = false ->
  truthy (summary event) = true ->
  guests (extractGuestInfo event) = guestsFromSummary (summary event).
Proof.
  intros Hb Ht. unfold extractGuestInfo. rewrite Hb, Ht.
  now destruct (nameFromSummary (trim (summary event))).
Qed.

End GuestPattern.

(** C3 (as amended). The guest-count scan belongs to the branch of the
    summaries that are not on the block list: there, the number [N] of the
    leftmost "<N> guest(s)" of the summary gives the guest count
    [max 1 N] when [N] is below 2^53, so that [parseInt] returns it as it
    is written; a summary of the block list has one guest whatever it
    says; a leftmost "0 guests" gives one guest in either case; and a
    summary without the pattern keeps the default of one guest. *)
Theorem guest_count_scan :
  (forall (event : CalendarEvent) (pre ds : string),
      ~ containsKeyword (summary event) ->
      leftmostGuestPattern (summary event) pre ds ->
      mathInt ds < 2 ^ 53 ->
      guests (extractGuestInfo event) = Z.max 1 (mathInt ds)) /\
  (forall event : CalendarEvent,
      containsKeyword (summary event) ->
      guests (extractGuestInfo event) = 1) /\
  (forall (event : CalendarEvent) (pre ds : string),
      leftmostGuestPattern (summary event) pre ds ->
      mathInt ds = 0 ->
      guests (extractGuestInfo event) = 1) /\
  (forall event : CalendarEvent,
      (forall pre ds, ~ guestPatternAt (summary event) pre ds) ->
      guests (extractGuestInfo event) = 1).
Proof.
  assert (A : forall event pre ds,
             ~ containsKeyword (summary event) ->
             leftmostGuestPattern (summary event) pre ds ->
             mathInt ds < 2 ^ 53 ->
             guests (extractGuestInfo event) = Z.max 1 (mathInt ds)).
  { intros event pre ds Hk Hp Hb.
    rewrite extractGuestInfo_not_blocked.
    - rewrite (guestsFromSummary_leftmost _ pre ds Hp).
      now rewrite (parseInt_small ds Hb).
    - destruct (isBlockedSummary (summary event)) eqn:B; [|reflexivity].
      now apply isBlockedSummary_iff in B.
    - apply truthy_iff. intros E.
      destruct Hp as [(ws & g & post & E' & Hne & _) _].
      rewrite E in E'. destruct pre; [|discriminate].
      destruct ds; [congruence | discriminate]. }
  assert (B : forall event, containsKeyword (summary event) ->
                            guests (extractGuestInfo event) = 1).
  { intros event H. apply isBlockedSummary_iff in H.
    now destruct (extractGuestInfo_blocked event H) as (_ & Hg & _). }
  split; [exact A|]. split; [exact B|]. split.
  - intros event pre ds Hp Hz.
    destruct (isBlockedSummary (summary event)) eqn:E.
    + apply B. now apply isBlockedSummary_iff.
    + rewrite (A event pre ds); [now rewrite Hz| |exact Hp|rewrite Hz; reflexivity].
      intros H. apply isBlockedSummary_iff in H. congruence.
  - intros event H.
    destruct (isBlockedSummary (summary event)) eqn:E.
    + apply B. now apply isBlockedSummary_iff.
    + destruct (truthy (summary event)) eqn:T.
      * rewrite (extractGuestInfo_not_blocked event E T).
        unfold guestsFromSummary.
        now rewrite exec_guestRegex, (firstAt_none _ H).
      * unfold extractGuestInfo. now rewrite E, T.
Qed.

Lemma noGuestBefore_sound (n : nat) :
  forall s pre ds,
    noGuestBefore n s = true -> guestPatternAt s pre ds ->
    (n <= String.length pre)%nat.
Proof.
  induction n as [|n IH]; intros s pre ds H Hp; [lia|].
  cbn [noGuestBefore] in H.
  destruct (guestAt s) eqn:G; [discriminate|].
  destruct pre as [|c pre].
  - apply guestAt_iff in Hp. congruence.
  - destruct (guestPatternAt_prefix _ _ _ Hp) as (s0 & -> & _).
    cbn [append] in H, Hp. apply guestPatternAt_cons in Hp.
    simpl. apply le_n_S. now apply (IH _ _ ds H).
Qed.

(** The leftmost occurrence, checked by computation. *)
Lemma leftmost_check (pre ds rest : string) :
  guestAt (ds ++ rest) = Some ds ->
  noGuestBefore (String.length pre) (pre ++ ds ++ rest) = true ->
  leftmostGuestPattern (pre ++ ds ++ rest) pre ds.
Proof.
  intros G N. split.
  - apply guestAt_iff in G as (ws & g & post & E & H).
    exists ws, g, post. cbn [append] in E. rewrite E. tauto.
  - intros pre' ds' H. exact (noGuestBefore_sound _ _ _ _ N H).
Qed.

(** C3, as the specification states it, fails: "Closed - 3 guests" holds
    "3 guests", and the guest count is 1, not 3. *)
Lemma guest_count_scan_skipped_when_blocked :
  ~ (forall (event : CalendarEvent) (pre ds : string),
        leftmostGuestPattern (summary event) pre ds ->
        guests (extractGuestInfo event) = Z.max 1 (parseInt ds)).
Proof.
  intros H.
  specialize (H (eventWithSummary "Closed - 3 guests") "Closed - " "3"
                (leftmost_check "Closed - " "3" " guests"
                                ltac:(vm_compute; reflexivity)
                                ltac:(vm_compute; reflexivity))).
  vm_compute in H. discriminate H.
Qed.

Lemma guest_count_scan_witness :
  guests (extractGuestInfo (eventWithSummary "Smith family, 4 Guests")) = 4 /\
  guests (extractGuestInfo (eventWithSummary "Blocked: 4 guests")) = 1 /\
  guests (extractGuestInfo (eventWithSummary "Jane - 0 guests")) = 1.
Proof.
  destruct guest_count_scan as (A & B & C & _).
  split; [|split].
  - apply (A (eventWithSummary "Smith family, 4 Guests") "Smith family, " "4").
    + intros K. apply isBlockedSummary_iff in K. vm_compute in K. discriminate K.
    + apply (leftmost_check "Smith family, " "4" " Guests");
        vm_compute; reflexivity.
    + vm_compute. reflexivity.
  - apply (B (eventWithSummary "Blocked: 4 guests")).
    apply isBlockedSummary_iff. vm_compute. reflexivity.
  - apply (C (eventWithSummary "Jane - 0 guests") "Jane - " "0").
    + apply (leftmost_check "Jane - " "0" " guests"); vm_compute; reflexivity.
    + vm_compute. reflexivity.
Defined.


(** ** The parser *)

Section ParserFacts.

Lemma collectEvents_acc (parsed : list (string * Component)) :
  forall events,
    collectEvents parsed events = (events ++ collectEvents parsed [])%list.
Proof.
  induction parsed as [|[key v] more IH]; intros events; cbn [collectEvents].
  - now rewrite app_nil_r.
  - destruct (String.eqb (v_type v) "VEVENT"); [|apply IH].
    destruct (v_uid v) as [u|]; [|apply IH].
    destruct (v_start v) as [s|]; [|apply IH].
    destruct (v_end v) as [e|]; [|apply IH].
    destruct (truthy u); [|apply IH].
    rewrite IH, (IH ([] ++ _)%list), app_assoc. reflexivity.
Qed.

Lemma collectEvents_app (a b : list (string * Component)) :
  collectEvents (a ++ b) [] = (collectEvents a [] ++ collectEvents b [])%list.
Proof.
  induction a as [|[key v] more IH]; cbn [collectEvents app]; [reflexivity|].
  destruct (String.eqb (v_type v) "VEVENT"); [|apply IH].
  destruct (v_uid v) as [u|]; [|apply IH].
  destruct (v_start v) as [s|]; [|apply IH].
  destruct (v_end v) as [e|]; [|apply IH].
  destruct (truthy u); [|apply IH].
  rewrite collectEvents_acc, (collectEvents_acc more), IH, app_assoc.
  reflexivity.
Qed.

(** An entry that is not complete leaves no event. *)
Lemma collectEvents_skip (key : string) (v : Component) :
  isComplete v = false -> collectEvents [(key, v)] [] = [].
Proof.
  unfold isComplete. cbn [collectEvents]. intros H.
  destruct (String.eqb (v_type v) "VEVENT"); [|reflexivity].
  destruct (v_uid v) as [u|]; [|reflexivity].
  destruct (v_start v) as [s|]; [|reflexivity].
  destruct (v_end v) as [e|]; [|reflexivity].
  destruct (truthy u); [discriminate H | reflexivity].
Qed.

(** A complete entry leaves exactly its event. *)
Lemma collectEvents_keep (key : string) (v : Component) :
  isComplete v = true ->
  exists e, collectEvents [(key, v)] [] = [e] /\ madeFrom v e /\ uid e <> "".
Proof.
  unfold isComplete, madeFrom. cbn [collectEvents]. intros H.
  destruct (String.eqb (v_type v) "VEVENT") eqn:T; [|discriminate H].
  apply String.eqb_eq in T.
  destruct (v_uid v) as [u|]; [|discriminate H].
  destruct (v_start v) as [s|]; [|now rewrite andb_false_r in H].
  destruct (v_end v) as [e|]; [|now rewrite andb_false_r in H].
  destruct (truthy u) eqn:U; [|discriminate H].
  eexists. split; [reflexivity|]. cbn.
  apply truthy_iff in U. tauto.
Qed.

(** Every event that is returned was made from a complete entry. *)
Lemma collectEvents_In (parsed : list (string * Component)) (e : CalendarEvent) :
  In e (collectEvents parsed []) ->
  exists key v, In (key, v) parsed /\ isComplete v = true /\
                madeFrom v e /\ uid e <> "".
Proof.
  induction parsed as [|[key v] more IH]; [intros []|].
  change ((key, v) :: more) with ([(key, v)] ++ more)%list.
  rewrite collectEvents_app, in_app_iff. intros [H|H].
  - destruct (isComplete v) eqn:C.
    + destruct (collectEvents_keep key v C) as (e' & E & M & U).
      rewrite E in H. destruct H as [<-|[]].
      exists key, v. simpl. tauto.
    + now rewrite (collectEvents_skip key v C) in H.
  - destruct (IH H) as (key' & v' & I & R). exists key', v'. simpl. tauto.
Qed.

(** When all the entries are complete there is one event for each. *)
Lemma collectEvents_length (parsed : list (string * Component)) :
  forallb (fun kv => isComplete (snd kv)) parsed = true ->
  List.length (collectEvents parsed []) = List.length parsed.
Proof.
  induction parsed as [|[key v] more IH]; [reflexivity|].
  cbn [forallb snd]. intros H. apply andb_true_iff in H as [C H].
  change ((key, v) :: more) with ([(key, v)] ++ more)%list.
  rewrite collectEvents_app, !length_app, (IH H).
  destruct (collectEvents_keep key v C) as (e & -> & _). reflexivity.
Qed.

End ParserFacts.

(** X18. Of the entries that node-ical hands over, the parser keeps the
    VEVENT entries that have an id, a start and an end, and passes over
    every other entry without an error. Every event it returns has a
    non-empty id and the id, the start and the end of one of these
    entries. The events of a list of entries with an entry that is not
    complete (one without its uid, for one) are those of the same list
    without that entry: one for each other entry, when those are
    complete. *)
Theorem parser_skips_incomplete_entries (rt : Runtime) :
  (forall icalData parsed,
      parseICS rt icalData = Returned parsed ->
      exists events,
        parseICalData rt icalData = Returned events /\
        forall e, In e events ->
          uid e <> "" /\
          exists key v, In (key, v) parsed /\ madeFrom v e) /\
  (forall icalData before key v after,
      parseICS rt icalData = Returned (before ++ (key, v) :: after)%list ->
      isComplete v = false ->
      exists events,
        parseICalData rt icalData = Returned events /\
        (forall icalData',
            parseICS rt icalData' = Returned (before ++ after)%list ->
            parseICalData rt icalData' = Returned events) /\
        (forallb (fun kv => isComplete (snd kv)) (before ++ after)%list = true ->
         List.length events = (List.length before + List.length after)%nat)).
Proof.
  split.
  - intros icalData parsed P. unfold parseICalData. rewrite P.
    eexists. split; [reflexivity|]. intros e H.
    destruct (collectEvents_In _ _ H) as (key & v & I & _ & M & U).
    split; [exact U|]. now exists key, v.
  - intros icalData before key v after P C. unfold parseICalData. rewrite P.
    eexists. split; [reflexivity|].
    change ((key, v) :: after) with ([(key, v)] ++ after)%list.
    rewrite !collectEvents_app, (collectEvents_skip key v C).
    cbn [app]. rewrite <- collectEvents_app. split.
    + intros icalData' P'. now rewrite P'.
    + intros H. rewrite collectEvents_length by exact H.
      apply length_app.
Qed.

Lemma parser_skips_incomplete_witness :
  exists events,
    parseICalData sampleRuntime "BEGIN:VCALENDAR ... END:VCALENDAR"
      = Returned events /\
    List.length events = 2%nat.
Proof.
  destruct (proj2 (parser_skips_incomplete_entries sampleRuntime)
              "BEGIN:VCALENDAR ... END:VCALENDAR"
              (firstn 1 sampleCalendar) "0c1f"
              (snd (nth 1 sampleCalendar (EmptyString, sampleEntry "" None 0 0)))
              (skipn 2 sampleCalendar))
    as (events & E & _ & L).
  - reflexivity.
  - reflexivity.
  - exists events. split; [exact E|]. apply L. reflexivity.
Defined.

(** ** The default summary *)

Section DefaultSummary.

Lemma review_label_differs (clean : string) :
  clean ++ " - Please Update" <> "Calendar Reservation".
Proof.
  intros H. pose proof (f_equal String.length H) as L.
  rewrite length_append in L. cbn [String.length] in L.
  destruct clean as [|c1 [|c2 [|c3 [|c4 [|c5 clean]]]]];
    cbn [String.length] in L; try lia.
  cbn [append] in H. injection H as _ _ _ _ H. discriminate H.
Qed.

(** On a summary that is not empty the extractor does not end in its
    last branch: it never returns the generic label with the placeholder
    flag. *)
Lemma extractGuestInfo_with_summary (event : CalendarEvent) :
  truthy (summary event) = true ->
  ~ (name (extractGuestInfo event) = "Calendar Reservation" /\
     isPlaceholder (extractGuestInfo event) = true).
Proof.
  intros T [Hn Hp]. unfold extractGuestInfo in Hn, Hp.
  destruct (isBlockedSummary (summary event)); [discriminate Hn|].
  rewrite T in Hn, Hp. unfold nameFromSummary in Hn, Hp.
  destruct (exec nameRegex (trim (summary event))) as [[m1|]|];
    cbn in Hn, Hp;
    try (now apply review_label_differs in Hn).
  destruct (truthy m1 && negb (includes (toLowerCase m1) "closed") &&
            negb (includes (toLowerCase m1) "blocked") &&
            negb (includes (toLowerCase m1) "unavailable"))%bool;
    cbn in Hn, Hp; [discriminate Hp|].
  now apply review_label_differs in Hn.
Qed.

Lemma orElse_truthy (x : option string) (d : string) :
  truthy d = true -> truthy (orElse x d) = true.
Proof.
  intros D. unfold orElse. destruct x as [s|]; [|exact D].
  destruct (truthy s) eqn:T; [exact T | exact D].
Qed.

Lemma orElse_lacking (v : Component) :
  lacksSummary v = true -> orElse (v_summary v) "Booking" = "Booking".
Proof.
  unfold lacksSummary, orElse. destruct (v_summary v) as [s|]; [|reflexivity].
  intros H. apply negb_true_iff in H. now rewrite H.
Qed.

Lemma In_collectEvents (parsed : list (string * Component))
    (key : string) (v : Component) :
  In (key, v) parsed -> isComplete v = true ->
  exists e, In e (collectEvents parsed []) /\ madeFrom v e.
Proof.
  induction parsed as [|[key' v'] more IH]; [intros []|].
  intros I C.
  change ((key', v') :: more) with ([(key', v')] ++ more)%list.
  rewrite collectEvents_app.
  destruct I as [E|I].
  - injection E as -> ->.
    destruct (collectEvents_keep key v C) as (e & -> & M & _).
    exists e. split; [now left | exact M].
  - destruct (IH I C) as (e & H & M).
    exists e. split; [apply in_or_app; now right | exact M].
Qed.

End DefaultSummary.

(** C10. A VEVENT entry with an id, a start and an end but no summary
    becomes an event with the summary "Booking", on which the extractor
    returns the name "Booking" without the placeholder flag; and no event
    that the parser returns has an empty summary, so the extractor never
    answers it with the generic label "Calendar Reservation" and the
    placeholder flag of its last branch. *)
Theorem parser_default_summary (rt : Runtime) (icalData : string)
    (parsed : list (string * Component)) :
  parseICS rt icalData = Returned parsed ->
  exists events,
    parseICalData rt icalData = Returned events /\
    (forall key v,
        In (key, v) parsed -> isComplete v = true -> lacksSummary v = true ->
        exists e,
          In e events /\ madeFrom v e /\
          summary e = "Booking" /\
          name (extractGuestInfo e) = "Booking" /\
          isPlaceholder (extractGuestInfo e) = false) /\
    (forall e,
        In e events ->
        summary e <> "" /\
        ~ (name (extractGuestInfo e) = "Calendar Reservation" /\
           isPlaceholder (extractGuestInfo e) = true)).
Proof.
  intros P. unfold parseICalData. rewrite P.
  eexists. split; [reflexivity|]. split.
  - intros key v I C L.
    destruct (In_collectEvents parsed key v I C) as (e & H & M).
    exists e. split; [exact H|]. split; [exact M|].
    destruct M as (_ & _ & _ & _ & S & _).
    rewrite (orElse_lacking v L) in S.
    split; [exact S|].
    unfold extractGuestInfo. rewrite S. vm_compute. auto.
  - intros e H.
    destruct (collectEvents_In _ _ H) as (key & v & _ & _ & M & _).
    destruct M as (_ & _ & _ & _ & S & _).
    assert (T : truthy (summary e) = true).
    { rewrite S. now apply orElse_truthy. }
    split; [now apply truthy_iff|].
    now apply extractGuestInfo_with_summary.
Qed.

Lemma parser_default_summary_witness :
  exists events e,
    parseICalData sampleRuntime "BEGIN:VCALENDAR ... END:VCALENDAR"
      = Returned events /\
    In e events /\ uid e = "evt-2" /\
    name (extractGuestInfo e) = "Booking" /\
    isPlaceholder (extractGuestInfo e) = false.
Proof.
  destruct (parser_default_summary sampleRuntime
              "BEGIN:VCALENDAR ... END:VCALENDAR" sampleCalendar eq_refl)
    as (events & E & H & _).
  destruct (H "evt-2" (sampleEntry "evt-2" None msPerDay (2 * msPerDay)))
    as (e & I & M & _ & N & P).
  - right. right. now left.
  - reflexivity.
  - reflexivity.
  - exists events, e. destruct M as (_ & U & _).
    injection U as U. repeat split; auto.
Defined.

(** ** Reconciliation of one event *)

Section Reconciliation.

Variable rt : Runtime.

Lemma ceilDiv_spec (a b : Z) :
  0 < b -> b * (ceilDiv a b - 1) < a <= b * ceilDiv a b.
Proof.
  intros Hb. unfold ceilDiv.
  pose proof (Z.div_mod (- a) b ltac:(lia)) as D.
  pose proof (Z.mod_pos_bound (- a) b Hb) as M.
  nia.
Qed.

Lemma nightsOf_spec (event : CalendarEvent) :
  msPerDay * (nightsOf event - 1) < end_ event - start event
    <= msPerDay * nightsOf event.
Proof. apply ceilDiv_spec. reflexivity. Qed.

Lemma nightsOf_nonpositive (event : CalendarEvent) :
  nightsOf event <= 0 <-> end_ event <= start event.
Proof.
  pose proof (nightsOf_spec event) as H.
  unfold msPerDay in H. split; intros; nia.
Qed.

Lemma process_invalid (propertyId : string) (event : CalendarEvent)
    (result : SyncResult) (w : World) :
  nightsOf event <= 0 ->
  processCalendarEvent rt propertyId event result w =
  (Returned (pushError result ("Invalid date range for event " ++ uid event)), w).
Proof.
  intros H. apply Z.leb_le in H.
  cbv [processCalendarEvent bind selectBookingIds ret].
  change (ceilDiv (end_ event - start event) msPerDay) with (nightsOf event).
  now rewrite H.
Qed.

Lemma process_update (propertyId : string) (event : CalendarEvent)
    (result : SyncResult) (w : World) (b0 : Booking) (others : list Booking) :
  0 < nightsOf event ->
  existingFor propertyId (uid event) w = b0 :: others ->
  processCalendarEvent rt propertyId event result w =
  (Returned (countUpdated result), afterUpdate rt (booking_id b0) event w).
Proof.
  intros H E. apply Z.leb_gt in H.
  cbv [processCalendarEvent bind selectBookingIds ret].
  change (ceilDiv (end_ event - start event) msPerDay) with (nightsOf event).
  rewrite H.
  change (filter (matchesKey propertyId (uid event)) (bookings w))
    with (existingFor propertyId (uid event) w).
  rewrite E. reflexivity.
Qed.

Lemma process_create (propertyId : string) (event : CalendarEvent)
    (result : SyncResult) (w : World) :
  0 < nightsOf event ->
  existingFor propertyId (uid event) w = [] ->
  processCalendarEvent rt propertyId event result w =
  (Returned (countCreated result), afterCreate rt propertyId event w).
Proof.
  intros H E. apply Z.leb_gt in H.
  cbv [processCalendarEvent bind selectBookingIds ret].
  change (ceilDiv (end_ event - start event) msPerDay) with (nightsOf event).
  rewrite H.
  change (filter (matchesKey propertyId (uid event)) (bookings w))
    with (existingFor propertyId (uid event) w).
  rewrite E. reflexivity.
Qed.

End Reconciliation.

(** C4. The night count is the ceiling of the length of the stay in days;
    it is not positive exactly when the end is not after the start; and on
    such an event the reconciliation only appends "Invalid date range for
    event <uid>" to the errors of the result: the counters stay as they
    were and the world, hence every booking, is left as it was. *)
Theorem invalid_date_range_is_recorded (rt : Runtime) (propertyId : string)
    (event : CalendarEvent) (result : SyncResult) (w : World) :
  msPerDay * (nightsOf event - 1) < end_ event - start event
    <= msPerDay * nightsOf event /\
  (end_ event <= start event -> nightsOf event <= 0) /\
  (nightsOf event <= 0 ->
   exists result',
     processCalendarEvent rt propertyId event result w = (Returned result', w) /\
     errors result' =
       (errors result ++ [("Invalid date range for event " ++ uid event)%string])%list /\
     bookingsCreated result' = bookingsCreated result /\
     bookingsUpdated result' = bookingsUpdated result /\
     bookingsSkipped result' = bookingsSkipped result).
Proof.
  split; [apply nightsOf_spec|]. split; [apply nightsOf_nonpositive|].
  intros H. eexists. split; [now apply process_invalid|].
  cbn. auto.
Qed.

Lemma invalid_date_range_witness :
  exists result',
    processCalendarEvent sampleRuntime "prop-1" (sampleEvent (2 * msPerDay) 0)
      newResult sampleWorld = (Returned result', sampleWorld) /\
    errors result' = ["Invalid date range for event evt-1"] /\
    bookingsUpdated result' = 0.
Proof.
  destruct (invalid_date_range_is_recorded sampleRuntime "prop-1"
              (sampleEvent (2 * msPerDay) 0) newResult sampleWorld)
    as (_ & L & H).
  destruct (H (L ltac:(vm_compute; discriminate)))
    as (result' & E & R & _ & U & _).
  exists result'. split; [exact E|]. split; [exact R | exact U].
Defined.

Section UpdateAndCreate.

Variable rt : Runtime.

Lemma existingFor_head (propertyId externalUid : string) (w : World) (b : Booking) :
  In b (bookings w) -> matchesKey propertyId externalUid b = true ->
  exists b0 others,
    existingFor propertyId externalUid w = b0 :: others /\
    In b0 (bookings w) /\ matchesKey propertyId externalUid b0 = true.
Proof.
  intros I M.
  assert (F : In b (existingFor propertyId externalUid w)).
  { apply filter_In. now split. }
  destruct (existingFor propertyId externalUid w) as [|b0 others] eqn:E;
    [destruct F|].
  exists b0, others. split; [reflexivity|].
  apply (filter_In (matchesKey propertyId externalUid)).
  unfold existingFor in E. rewrite E. now left.
Qed.

Lemma existingFor_none (propertyId externalUid : string) (w : World) :
  (forall b, In b (bookings w) -> matchesKey propertyId externalUid b = false) ->
  existingFor propertyId externalUid w = [].
Proof.
  intros H. unfold existingFor.
  induction (bookings w) as [|b l IH]; [reflexivity|].
  cbn [filter]. rewrite (H b (or_introl eq_refl)).
  apply IH. intros b' I. apply H. now right.
Qed.

Lemma applyUpdate_frame (g : GuestInfo) (a b n : Z) (sr : option string)
    (notes : string) (t : Z) (bk : Booking) :
  sameOutsideSync bk (applyUpdate g a b n sr notes t bk).
Proof. repeat split. Qed.

Lemma sameOutsideSync_refl (b : Booking) : sameOutsideSync b b.
Proof. repeat split. Qed.

End UpdateAndCreate.

(** C5 (as amended). When the event has a valid date range and a booking
    exists for (property, uid), the reconciliation adds one to
    [bookingsUpdated] and nothing to the other counters and the errors, and
    changes one booking [b0] of that key only: the guest name, email,
    phone and count, the two dates, the night count, the special requests
    (the description of the event), the internal notes ("Updated from
    calendar sync on <timestamp>") and the row timestamp are written; the
    amounts, the two statuses and every other field of [b0], and every
    other booking, stay as they were. *)
Theorem existing_booking_is_updated (rt : Runtime) (propertyId : string)
    (event : CalendarEvent) (result : SyncResult) (w : World) :
  0 < nightsOf event ->
  (exists b, In b (bookings w) /\ matchesKey propertyId (uid event) b = true) ->
  exists b0 result' w',
    In b0 (bookings w) /\
    matchesKey propertyId (uid event) b0 = true /\
    processCalendarEvent rt propertyId event result w = (Returned result', w') /\
    bookingsUpdated result' = bookingsUpdated result + 1 /\
    bookingsCreated result' = bookingsCreated result /\
    bookingsSkipped result' = bookingsSkipped result /\
    errors result' = errors result /\
    properties w' = properties w /\
    List.length (bookings w') = List.length (bookings w) /\
    forall i b,
      nth_error (bookings w) i = Some b ->
      exists b',
        nth_error (bookings w') i = Some b' /\
        sameOutsideSync b b' /\
        (booking_id b = booking_id b0 -> syncedFrom rt event (clockReads w) b') /\
        (booking_id b <> booking_id b0 -> b' = b).
Proof.
  intros N (b & I & M).
  destruct (existingFor_head propertyId (uid event) w b I M)
    as (b0 & others & E & I0 & M0).
  exists b0, (countUpdated result), (afterUpdate rt (booking_id b0) event w).
  split; [exact I0|]. split; [exact M0|].
  split; [now apply process_update with others|].
  cbn [countUpdated bookingsUpdated bookingsCreated bookingsSkipped errors
       afterUpdate properties bookings].
  repeat (split; [reflexivity|]).
  split; [apply length_map|].
  intros i bk H. rewrite nth_error_map, H. cbn [option_map].
  eexists. split; [reflexivity|].
  destruct (String.eqb_spec (booking_id bk) (booking_id b0)) as [Q|Q].
  - split; [apply applyUpdate_frame|]. split; [|congruence].
    intros _. repeat split.
  - split; [apply sameOutsideSync_refl|]. split; [congruence|reflexivity].
Qed.

(** C5, as the specification states it, fails: a booking exists for the
    event, the event ends when it starts, and nothing is counted as
    updated. *)
Lemma existing_booking_untouched_on_invalid_range :
  ~ (forall (rt : Runtime) (propertyId : string) (event : CalendarEvent)
            (result : SyncResult) (w : World),
        (exists b, In b (bookings w) /\
                   matchesKey propertyId (uid event) b = true) ->
        exists result' w',
          processCalendarEvent rt propertyId event result w
            = (Returned result', w') /\
          bookingsUpdated result' = bookingsUpdated result + 1).
Proof.
  intros H.
  destruct (H sampleRuntime "prop-1" (sampleEvent 0 0) newResult sampleWorld)
    as (result' & w' & E & U).
  - exists sampleBooking. split; [now left | reflexivity].
  - rewrite process_invalid in E by (vm_compute; discriminate).
    injection E as <- _. cbn in U. discriminate U.
Qed.

Lemma existing_booking_is_updated_witness :
  exists result' w',
    processCalendarEvent sampleRuntime "prop-1" (sampleEvent 0 (2 * msPerDay))
      newResult sampleWorld = (Returned result', w') /\
    bookingsUpdated result' = 1 /\
    List.length (bookings w') = 1%nat.
Proof.
  destruct (existing_booking_is_updated sampleRuntime "prop-1"
              (sampleEvent 0 (2 * msPerDay)) newResult sampleWorld)
    as (b0 & result' & w' & _ & _ & E & U & _ & _ & _ & _ & L & _).
  - vm_compute. reflexivity.
  - exists sampleBooking. split; [now left | reflexivity].
  - exists result', w'. split; [exact E|]. split; [exact U | exact L].
Defined.

(** C6 (as amended). When the event has a valid date range and no booking
    exists for (property, uid), the reconciliation appends exactly one
    booking to the table and adds one to [bookingsCreated] only. The new
    booking is for that property and has the uid as its external id, both
    statuses "pending", the five amounts zero, the source "booking.com"
    whatever feed the event came from, the guest fields of the extractor, the
    dates and night count of the event, and internal notes that begin with
    "[PLACEHOLDER]" exactly when the extractor set the placeholder flag. *)
Theorem new_booking_is_created (rt : Runtime) (propertyId : string)
    (event : CalendarEvent) (result : SyncResult) (w : World) :
  0 < nightsOf event ->
  (forall b, In b (bookings w) -> matchesKey propertyId (uid event) b = false) ->
  exists b notes result' w',
    processCalendarEvent rt propertyId event result w = (Returned result', w') /\
    bookings w' = (bookings w ++ [b])%list /\
    properties w' = properties w /\
    bookingsCreated result' = bookingsCreated result + 1 /\
    bookingsUpdated result' = bookingsUpdated result /\
    bookingsSkipped result' = bookingsSkipped result /\
    errors result' = errors result /\
    property_id b = propertyId /\
    external_id b = Some (uid event) /\
    booking_status b = "pending" /\
    payment_status b = "pending" /\
    base_amount b = 0 /\ cleaning_fee b = 0 /\ taxes b = 0 /\
    total_amount b = 0 /\ security_deposit b = 0 /\
    booking_source b = Some "booking.com" /\
    guest_name b = name (extractGuestInfo event) /\
    number_of_guests b = guests (extractGuestInfo event) /\
    check_in_date b = start event /\
    check_out_date b = end_ event /\
    nights_count b = nightsOf event /\
    internal_notes b = Some notes /\
    startsWith notes "[PLACEHOLDER]" = isPlaceholder (extractGuestInfo event).
Proof.
  intros N H.
  exists (createdFor rt propertyId event w), (importNotes rt event w),
         (countCreated result), (afterCreate rt propertyId event w).
  split; [apply process_create; [exact N | now apply existingFor_none]|].
  repeat (split; [reflexivity|]).
  unfold importNotes.
  destruct (isPlaceholder (extractGuestInfo event)); reflexivity.
Qed.

Lemma new_booking_is_created_witness :
  exists b result' w',
    processCalendarEvent sampleRuntime "prop-2" (sampleEvent 0 (2 * msPerDay))
      newResult sampleWorld = (Returned result', w') /\
    bookings w' = [sampleBooking; b] /\
    booking_status b = "pending" /\
    bookingsCreated result' = 1.
Proof.
  destruct (new_booking_is_created sampleRuntime "prop-2"
              (sampleEvent 0 (2 * msPerDay)) newResult sampleWorld)
    as (b & notes & result' & w' & E & B & _ & C & _ & _ & _ & _ & _ & S & _).
  - vm_compute. reflexivity.
  - intros b [<-|[]]. reflexivity.
  - exists b, result', w'. repeat split; assumption.
Defined.

(** ** The entry point on stored settings *)

(** C8. For a property whose stored settings have the sync disabled or no
    calendar URL, the entry point on stored settings returns a result with
    [success = false] and the one error "Calendar sync is not enabled for
    this property", and leaves the world as it was: no request is sent and
    no booking is created or changed. *)
Theorem sync_is_gated_by_settings (rt : Runtime) (propertyId : string)
    (w : World) (property : Property) :
  storedProperty propertyId w = Some property ->
  sync_enabled property = false \/ orUndefined (ical_url property) = None ->
  exists result,
    syncPropertyCalendar rt propertyId w = (Returned result, w) /\
    success result = false /\
    errors result = ["Calendar sync is not enabled for this property"] /\
    bookingsCreated result = 0 /\
    bookingsUpdated result = 0.
Proof.
  unfold storedProperty. intros S G.
  exists (pushError newResult "Calendar sync is not enabled for this property").
  split; [|repeat split].
  cbv [syncPropertyCalendar tryCatch bind selectProperty ret].
  destruct (filter (fun p => String.eqb (p_id p) propertyId) (properties w))
    as [|p l]; [discriminate S|].
  injection S as ->.
  destruct G as [G|G]; rewrite G; [reflexivity|].
  now destruct (sync_enabled property).
Qed.

Lemma sync_is_gated_by_settings_witness :
  exists result,
    syncPropertyCalendar sampleRuntime "prop-9" disabledWorld
      = (Returned result, disabledWorld) /\
    success result = false.
Proof.
  destruct (sync_is_gated_by_settings sampleRuntime "prop-9" disabledWorld
              disabledProperty) as (result & E & S & _).
  - reflexivity.
  - left. reflexivity.
  - exists result. split; assumption.
Defined.

(** ** The fetcher *)

Section Fetcher.

Variable rt : Runtime.

(** [downloadICalData] logs the request and returns what the answer of
    the network gives. *)
Lemma downloadICalData_eq (url : string) (w : World) :
  downloadICalData rt url w =
  (fetchedFrom rt (network rt (List.length (requests w)) url),
   afterAnswer (network rt (List.length (requests w)) url) url w).
Proof.
  cbv [downloadICalData tryCatch bind axios_get throw lift parseICalData
       fetchedFrom afterAnswer].
  fold (afterRequest url w).
  destruct (network rt (List.length (requests w)) url) as [status data|msg|msg];
    [|reflexivity|reflexivity].
  destruct ((200 <=? status) && (status <? 300))%bool; [|reflexivity].
  cbn [fst snd]. destruct (status =? 200); cbn [negb]; [|reflexivity].
  now destruct (parseICS rt data).
Qed.

End Fetcher.

(** C9. Where a malformed-content error is expected, [downloadICalData]
    returns events: it never inspects the body, so a response with status
    200 whose body does not hold "BEGIN:VCALENDAR" is handed to the
    parser, and the parser's events (none, when it finds no entry) are
    returned without any error. *)
Theorem download_has_no_content_check (rt : Runtime) (url data : string)
    (parsed : list (string * Component)) (w : World) :
  network rt (List.length (requests w)) url = HttpResponse 200 data ->
  includes data "BEGIN:VCALENDAR" = false ->
  parseICS rt data = Returned parsed ->
  downloadICalData rt url w =
  (Returned (collectEvents parsed []), afterRequest url w).
Proof.
  intros N _ P. rewrite downloadICalData_eq, N. cbn. now rewrite P.
Qed.

Lemma download_has_no_content_check_witness :
  includes "<html><body>Sign in</body></html>" "BEGIN:VCALENDAR" = false /\
  downloadICalData sampleRuntime "https://example.org/page.html" sampleWorld =
  (Returned [], afterRequest "https://example.org/page.html" sampleWorld).
Proof.
  split; [reflexivity|].
  apply (download_has_no_content_check sampleRuntime
           "https://example.org/page.html"
           "<html><body>Sign in</body></html>" [] sampleWorld);
    reflexivity.
Defined.

(** ** Sync passes *)

Section SyncPasses.

Variable rt : Runtime.
Variable propertyId : string.

Local Open Scope nat_scope.






(** The pass, case by case. *)
(** Events come from a response only: the request was sent. *)
Lemma fetched_was_sent (answer : HttpOutcome) (url : string) (w : World)
    (events : list CalendarEvent) :
  fetchedFrom rt answer = Returned events ->
  afterAnswer answer url w = afterRequest url w.
Proof. destruct answer; [reflexivity|reflexivity|discriminate]. Qed.

Lemma afterAnswer_tables (answer : HttpOutcome) (url : string) (w : World) :
  properties (afterAnswer answer url w) = properties w /\
  bookings (afterAnswer answer url w) = bookings w.
Proof. now destruct answer. Qed.

Lemma syncPropertyCalendarWithUrl_eq (url : string) (w : World) :
  syncPropertyCalendarWithUrl rt propertyId url w =
  match storedProperty propertyId w with
  | None => (Returned (pushError newResult "Property not found"), w)
  | Some _ =>
      match fetchedFrom rt (network rt (List.length (requests w)) url) with
      | Thrown msg =>
          (Returned (pushError newResult ("Sync failed: " ++ msg)),
           afterAnswer (network rt (List.length (requests w)) url) url w)
      | Returned events =>
          match processEvents rt propertyId events newResult (afterRequest url w) with
          | (Returned result', w') =>
              (Returned (finish result'), afterTouch rt propertyId w')
          | (Thrown msg, w') =>
              (Returned (pushError newResult ("Sync failed: " ++ msg)), w')
          end
      end
  end.
Proof.
  unfold syncPropertyCalendarWithUrl, storedProperty, tryCatch.
  unfold bind at 1. unfold selectProperty.
  destruct (filter (fun p => String.eqb (p_id p) propertyId) (properties w))
    as [|p l]; [reflexivity|].
  cbn [List.head]. unfold bind at 1.
  rewrite downloadICalData_eq.
  destruct (fetchedFrom rt (network rt (List.length (requests w)) url))
    as [events|msg] eqn:F; [|reflexivity].
  rewrite (fetched_was_sent _ _ _ _ F).
  unfold bind at 1.
  destruct (processEvents rt propertyId events newResult (afterRequest url w))
    as [[result'|msg] w']; reflexivity.
Qed.




End SyncPasses.



(** The first pass of the example creates the booking of "evt-2" and
    updates the one of "evt-1"; the second creates nothing. *)
Example two_passes :
  let url := "https://example.org/cal.ics" in
  let '(o1, w1) := syncPropertyCalendarWithUrl sampleRuntime "prop-1" url sampleWorld in
  let '(o2, w2) := syncPropertyCalendarWithUrl sampleRuntime "prop-1" url w1 in
  match o1, o2 with
  | Returned r1, Returned r2 =>
      (bookingsCreated r1, bookingsUpdated r1, errors r1) = (1, 1, []) /\
      (bookingsCreated r2, bookingsUpdated r2, errors r2) = (0, 2, []) /\
      map external_id (bookings w2) = [Some "evt-1"; Some "evt-2"] /\
      map guest_name (bookings w2) = ["Jane Roe"; "Booking"] /\
      map booking_status (bookings w2) = ["confirmed"; "pending"] /\
      requests w2 = [url; url] /\
      success r2 = true /\
      message r2 = "Sync completed successfully. Created: 0, Updated: 2, Skipped: 0"
  | _, _ => False
  end.
Proof. vm_compute. repeat split. Qed.

(** The counterexample to C6 as it was stated: a calendar fetched from a
    feed of Airbnb, whose URL does not name Booking.com, gives a new
    booking with the source "booking.com". *)
Lemma booking_source_ignores_the_feed :
  includes airbnbFeed "booking.com" = false /\
  exists result w' b1 b2,
    syncPropertyCalendarWithUrl airbnbRuntime "prop-1" airbnbFeed sampleWorld
      = (Returned result, w') /\
    requests w' = [airbnbFeed] /\
    bookingsCreated result = 1 /\
    bookings w' = [b1; b2] /\
    external_id b2 = Some "evt-2" /\
    booking_source b2 = Some "booking.com".
Proof.
  split; [reflexivity|].
  do 4 eexists. split; [reflexivity|].
  repeat split.
Qed.

(** C7. An entry without an end is not passed over. node-ical hands over
    an entry whose text has a date-time DTSTART and no DTEND with the
    start as its end; the parser keeps such an entry, since it has an id,
    a start and an end, and the reconciliation then rejects the event
    with "Invalid date range for event <uid>", which makes the pass a
    failure: the entry is neither skipped nor silent. *)
Theorem entry_without_end_is_not_skipped (rt : Runtime)
    (icalData key u propertyId : string) (s : Z) (v : Component)
    (result : SyncResult) (w : World) :
  parseICS rt icalData = Returned [(key, v)] ->
  v_type v = "VEVENT" ->
  v_uid v = Some u -> u <> "" ->
  v_start v = Some s ->
  v_end v = Some s ->
  exists e,
    parseICalData rt icalData = Returned [e] /\
    uid e = u /\ start e = s /\ end_ e = s /\
    processCalendarEvent rt propertyId e result w
    = (Returned (pushError result ("Invalid date range for event " ++ u)), w).
Proof.
  intros P T U N S E.
  assert (C : isComplete v = true).
  { unfold isComplete. rewrite T, U, S, E. cbn.
    apply truthy_iff in N. now rewrite N. }
  destruct (collectEvents_keep key v C) as (e & K & M & _).
  destruct M as (_ & Mu & Ms & Me & _).
  rewrite U in Mu. rewrite S in Ms. rewrite E in Me.
  injection Mu as Mu. injection Ms as Ms. injection Me as Me.
  exists e. unfold parseICalData. rewrite P, K.
  split; [reflexivity|]. split; [now symmetry|].
  split; [now symmetry|]. split; [now symmetry|].
  rewrite Mu. apply process_invalid.
  apply nightsOf_nonpositive. lia.
Qed.

Lemma entry_without_end_witness :
  exists e,
    parseICalData endlessRuntime endlessCalendar = Returned [e] /\
    uid e = "evt-9" /\
    processCalendarEvent endlessRuntime "prop-1" e newResult sampleWorld
    = (Returned (pushError newResult "Invalid date range for event evt-9"),
       sampleWorld).
Proof.
  destruct (entry_without_end_is_not_skipped endlessRuntime endlessCalendar
              "evt-9" "evt-9" "prop-1" 1704448800000 endlessEntry
              newResult sampleWorld)
    as (e & P & U & _ & _ & R);
    [reflexivity|reflexivity|reflexivity|discriminate|reflexivity|reflexivity|].
  exists e. split; [exact P|]. split; [exact U|exact R].
Defined.

(** * Further properties of the service *)

(** ** Soundness of the matcher *)

Section MatcherSoundness.

Lemma append_assoc (a b c : string) : (a ++ b) ++ c = a ++ (b ++ c).
Proof. induction a as [|x a IH]; simpl; congruence. Qed.

Lemma rep_sound (p : ascii -> bool) (k : cont) (m : mstate) :
  forall s lo hi i g,
    rep p lo hi i s g k = Some m ->
    exists a b,
      s = a ++ b /\ allOf p a = true /\
      (lo <= String.length a)%nat /\ withinBound hi (String.length a) /\
      k (MState (i + String.length a) b g) = Some m.
Proof.
  assert (Stop : forall s lo hi i g,
             match lo with O => k (MState i s g) | S _ => None end = Some m ->
             exists a b,
               s = a ++ b /\ allOf p a = true /\
               (lo <= String.length a)%nat /\ withinBound hi (String.length a) /\
               k (MState (i + String.length a) b g) = Some m).
  { intros s lo hi i g H. destruct lo; [|discriminate].
    exists "", s. cbn [append allOf String.length]. rewrite Nat.add_0_r.
    repeat split; auto. destruct hi; cbn; lia. }
  induction s as [|c t IH]; intros lo hi i g H; cbn [rep] in H.
  - now apply Stop.
  - destruct (p c && negb (exhausted hi))%bool eqn:E; [|now apply Stop].
    apply andb_true_iff in E as [Pc Ex]. apply negb_true_iff in Ex.
    destruct (rep p (Nat.pred lo) (decr hi) (S i) t g k) eqn:R;
      [|now apply Stop].
    injection H as <-.
    destruct (IH _ _ _ _ R) as (a & b & -> & A & L & B & K).
    exists (String c a), b. cbn [append allOf String.length].
    rewrite Pc, A, <- plus_n_Sm. repeat split; auto; [lia|].
    destruct hi as [[|h]|]; cbn in *; try discriminate; lia.
Qed.

(** A successful run of a pattern has matched a prefix of the text that
    was left, and has gone on with the rest. *)
Lemma run_sound (r : regex) :
  forall x k m,
    run r x k = Some m ->
    exists a y,
      rest x = a ++ rest y /\
      pos y = (pos x + String.length a)%nat /\
      Matches r (pos x) a (rest y) (group1 x) (group1 y) /\
      k y = Some m.
Proof.
  induction r as [|p|p lo hi|r1 IH1 r2 IH2|r1 IH1 r2 IH2|r IH| |];
    intros x k m H; cbn [run] in H.
  - exists "", x. rewrite Nat.add_0_r. repeat split; auto. constructor.
  - destruct (rest x) as [|c t] eqn:E; [discriminate|].
    destruct (p c) eqn:P; [|discriminate].
    exists (String c ""), (MState (S (pos x)) t (group1 x)).
    cbn. repeat split; auto; [lia|]. now constructor.
  - destruct (rep_sound _ _ _ _ _ _ _ _ H) as (a & b & E & A & L & B & K).
    exists a, (MState (pos x + String.length a) b (group1 x)).
    cbn. repeat split; auto. now constructor.
  - destruct (IH1 _ _ _ H) as (a & y & E1 & P1 & M1 & K1).
    destruct (IH2 _ _ _ K1) as (b & z & E2 & P2 & M2 & K2).
    exists (a ++ b), z. rewrite append_assoc, <- E2, length_append.
    repeat split; auto; [lia|].
    apply MatchesCat with (g1 := group1 y);
      [now rewrite <- E2 | now rewrite <- P1].
  - destruct (run r1 x k) eqn:R1.
    + injection H as <-.
      destruct (IH1 _ _ _ R1) as (a & y & E & P & M & K).
      exists a, y. repeat split; auto. now apply MatchesAltL.
    + destruct (IH2 _ _ _ H) as (a & y & E & P & M & K).
      exists a, y. repeat split; auto. now apply MatchesAltR.
  - destruct (IH _ _ _ H) as (a & y & E & P & M & K).
    exists a, (MState (pos y) (rest y) (Some a)). cbn.
    repeat split; auto; [now apply MatchesGrp with (g1 := group1 y)|].
    rewrite <- K. do 3 f_equal.
    rewrite P, E. replace (pos x + String.length a - pos x)%nat
      with (String.length a) by lia.
    symmetry. apply take_append.
  - destruct (Nat.eqb_spec (pos x) 0) as [Z|]; [|discriminate].
    exists "", x. rewrite Nat.add_0_r, Z. repeat split; auto. constructor.
  - destruct (rest x) eqn:E; [|discriminate].
    exists "", x. rewrite Nat.add_0_r, E. repeat split; auto. constructor.
Qed.

Lemma search_sound (r : regex) :
  forall s i m,
    search r i s = Some m ->
    exists pre a post,
      s = pre ++ a ++ post /\
      Matches r (i + String.length pre) a post None (group1 m).
Proof.
  induction s as [|c t IH]; intros i m H; cbn [search] in H.
  - destruct (run r (MState i "" None) Some) eqn:R; [|discriminate].
    injection H as <-.
    destruct (run_sound _ _ _ _ R) as (a & y & E & P & M & K).
    injection K as <-. cbn in E, M.
    exists "", a, (rest y). rewrite Nat.add_0_r. now split.
  - destruct (run r (MState i (String c t) None) Some) eqn:R.
    + injection H as <-.
      destruct (run_sound _ _ _ _ R) as (a & y & E & P & M & K).
      injection K as <-. cbn in E, M.
      exists "", a, (rest y). rewrite Nat.add_0_r. now split.
    + destruct (IH _ _ H) as (pre & a & post & -> & M).
      exists (String c pre), a, post. split; [reflexivity|].
      cbn [String.length]. now rewrite <- plus_n_Sm.
Qed.

(** What [s.match(r)] returns was matched somewhere in [s]. *)
Lemma exec_sound (r : regex) (s : string) (c : option string) :
  exec r s = Some c ->
  exists pre a post,
    s = pre ++ a ++ post /\ Matches r (String.length pre) a post None c.
Proof.
  unfold exec. destruct (search r 0 s) eqn:S; [|discriminate].
  intros H. injection H as <-. exact (search_sound _ _ _ _ S).
Qed.

End MatcherSoundness.

(** ** Reading a match back *)

Section MatchInversion.

Lemma Matches_Eps_inv i a after g g' :
  Matches Eps i a after g g' -> a = "" /\ g' = g.
Proof. intros H. inversion H; subst. auto. Qed.

Lemma Matches_Chr_inv p i a after g g' :
  Matches (Chr p) i a after g g' ->
  exists c, a = String c "" /\ p c = true /\ g' = g.
Proof. intros H. inversion H; subst. eauto. Qed.

Lemma Matches_Rep_inv p lo hi i a after g g' :
  Matches (Rep p lo hi) i a after g g' ->
  allOf p a = true /\ (lo <= String.length a)%nat /\
  withinBound hi (String.length a) /\ g' = g.
Proof. intros H. inversion H; subst. auto. Qed.

Lemma Matches_Cat_inv r1 r2 i a after g g' :
  Matches (Cat r1 r2) i a after g g' ->
  exists a1 a2 g1,
    a = a1 ++ a2 /\
    Matches r1 i a1 (a2 ++ after) g g1 /\
    Matches r2 (i + String.length a1) a2 after g1 g'.
Proof. intros H. inversion H; subst. eauto 6. Qed.

Lemma Matches_Alt_inv r1 r2 i a after g g' :
  Matches (Alt r1 r2) i a after g g' ->
  Matches r1 i a after g g' \/ Matches r2 i a after g g'.
Proof. intros H. inversion H; subst; auto. Qed.

Lemma Matches_Grp_inv r i a after g g' :
  Matches (Grp r) i a after g g' ->
  g' = Some a /\ exists g1, Matches r i a after g g1.
Proof. intros H. inversion H; subst. eauto. Qed.

Lemma Matches_Bol_inv i a after g g' :
  Matches Bol i a after g g' -> i = 0%nat /\ a = "" /\ g' = g.
Proof. intros H. inversion H; subst. auto. Qed.

Lemma Matches_Eol_inv i a after g g' :
  Matches Eol i a after g g' -> a = "" /\ after = "" /\ g' = g.
Proof. intros H. inversion H; subst. auto. Qed.

Lemma Matches_lit_inv c i a after g g' :
  Matches (lit c) i a after g g' -> a = String c "" /\ g' = g.
Proof.
  intros H. apply Matches_Chr_inv in H as (d & -> & E & ->).
  apply Ascii.eqb_eq in E. now subst.
Qed.

Lemma Matches_wordI_inv (w : string) :
  forall i a after g g',
    Matches (wordI w) i a after g g' -> foldCases a = foldCases w /\ g' = g.
Proof.
  induction w as [|c w IH]; intros i a after g g' H; cbn [wordI] in H.
  - apply Matches_Eps_inv in H as [-> ->]. auto.
  - apply Matches_Cat_inv in H as (a1 & a2 & g1 & -> & H1 & H2).
    apply Matches_Chr_inv in H1 as (d & -> & E & ->).
    apply Ascii.eqb_eq in E.
    destruct (IH _ _ _ _ _ H2) as [F ->].
    cbn. now rewrite F, E.
Qed.

End MatchInversion.

(** ** Trimming *)

Section TrimFacts.

Lemma allOf_append (p : ascii -> bool) (a b : string) :
  allOf p (a ++ b) = (allOf p a && allOf p b)%bool.
Proof.
  induction a as [|c a IH]; cbn; [reflexivity|].
  now rewrite IH, andb_assoc.
Qed.

Lemma trimStart_split (s : string) :
  exists a, s = a ++ trimStart s /\ allOf isWhiteSpace a = true.
Proof.
  induction s as [|c t (a & E & A)]; cbn [trimStart].
  - now exists "".
  - destruct (isWhiteSpace c) eqn:W.
    + exists (String c a). cbn. now rewrite W, A, <- E.
    + now exists "".
Qed.

Lemma trimStart_stops (s : string) :
  stopsAt isWhiteSpace (trimStart s) = true.
Proof.
  induction s as [|c t IH]; cbn [trimStart]; [reflexivity|].
  destruct (isWhiteSpace c) eqn:W; [exact IH|]. cbn. now rewrite W.
Qed.

Lemma trimStart_fixed (s : string) :
  stopsAt isWhiteSpace s = true -> trimStart s = s.
Proof.
  destruct s as [|c t]; cbn; [reflexivity|].
  intros H. apply negb_true_iff in H. now rewrite H.
Qed.

Lemma trimEnd_split (s : string) :
  exists b, s = trimEnd s ++ b /\ allOf isWhiteSpace b = true.
Proof.
  induction s as [|c t (b & E & B)]; cbn [trimEnd].
  - now exists "".
  - destruct (trimEnd t) as [|d u] eqn:T.
    + cbn [append] in E. subst t. destruct (isWhiteSpace c) eqn:W.
      * exists (String c b). cbn. now rewrite W, B.
      * exists b. now split.
    + exists b. split; [|exact B]. cbn [append] in E |- *. now rewrite <- E.
Qed.

Lemma trimEnd_head (c : ascii) (t : string) :
  isWhiteSpace c = false -> exists u, trimEnd (String c t) = String c u.
Proof.
  intros W. cbn [trimEnd]. destruct (trimEnd t); rewrite ?W; eauto.
Qed.

Lemma trimEnd_stops (s : string) :
  stopsAt isWhiteSpace s = true -> stopsAt isWhiteSpace (trimEnd s) = true.
Proof.
  destruct s as [|c t]; [reflexivity|]. cbn [stopsAt]. intros H.
  apply negb_true_iff in H. destruct (trimEnd_head c t H) as (u & ->).
  cbn. now rewrite H.
Qed.

Lemma trimEnd_idem (s : string) : trimEnd (trimEnd s) = trimEnd s.
Proof.
  induction s as [|c t IH]; [reflexivity|]. cbn [trimEnd].
  destruct (trimEnd t) as [|d u] eqn:T.
  - destruct (isWhiteSpace c) eqn:W; [reflexivity|].
    cbn. now rewrite W.
  - cbn [trimEnd]. cbn [trimEnd] in IH. now rewrite IH.
Qed.

(** [trim] leaves a trimmed string as it is. *)
Lemma trim_idem (s : string) : trim (trim s) = trim s.
Proof.
  unfold trim.
  rewrite (trimStart_fixed (trimEnd (trimStart s))).
  - apply trimEnd_idem.
  - apply trimEnd_stops, trimStart_stops.
Qed.

Lemma trim_stops (s : string) : stopsAt isWhiteSpace (trim s) = true.
Proof. apply trimEnd_stops, trimStart_stops. Qed.

(** The trimmed string sits in the middle of the string, between white
    space. *)
Lemma trim_split (s : string) :
  exists a b,
    s = a ++ trim s ++ b /\
    allOf isWhiteSpace a = true /\ allOf isWhiteSpace b = true.
Proof.
  destruct (trimStart_split s) as (a & E & A).
  destruct (trimEnd_split (trimStart s)) as (b & F & B).
  exists a, b. unfold trim. rewrite <- F. auto.
Qed.

Lemma trim_allOf (p : ascii -> bool) (s : string) :
  allOf p s = true -> allOf p (trim s) = true.
Proof.
  destruct (trim_split s) as (a & b & E & _). intros H.
  rewrite E, !allOf_append in H.
  apply andb_true_iff in H as [_ H]. now apply andb_true_iff in H as [H _].
Qed.

Lemma trim_length (s : string) :
  (String.length (trim s) <= String.length s)%nat.
Proof.
  destruct (trim_split s) as (a & b & E & _).
  rewrite E at 2. rewrite !length_append. lia.
Qed.

(** A string that begins with a character that is not white space does
    not trim to the empty string, and loses only white space at its
    end. *)
Lemma trim_of_stopped (s : string) :
  s <> "" -> stopsAt isWhiteSpace s = true ->
  trim s <> "" /\
  exists b, s = trim s ++ b /\ allOf isWhiteSpace b = true.
Proof.
  intros N H. unfold trim. rewrite (trimStart_fixed s H).
  split; [|apply trimEnd_split].
  destruct s as [|c t]; [congruence|]. cbn [stopsAt] in H.
  apply negb_true_iff in H. destruct (trimEnd_head c t H) as (u & ->).
  discriminate.
Qed.

End TrimFacts.

(** ** What the extractor returns *)

Section ExtractorFacts.

Lemma orUndefined_Some (x : option string) (m : string) :
  orUndefined x = Some m -> x = Some m /\ m <> "".
Proof.
  destruct x as [s|]; cbn; [|discriminate].
  destruct (truthy s) eqn:T; [|discriminate].
  intros H. injection H as <-. split; [reflexivity|]. now apply truthy_iff.
Qed.

(** The capture of [emailRegex] reads as an address. *)
Lemma emailRegex_shape i a after c :
  Matches emailRegex i a after None c -> c = Some a /\ emailShaped a.
Proof.
  unfold emailRegex, plus. intros H.
  apply Matches_Grp_inv in H as (-> & g1 & H). split; [reflexivity|].
  apply Matches_Cat_inv in H as (loc & r1 & g2 & -> & L & H).
  apply Matches_Rep_inv in L as (L & Ln & _ & _).
  apply Matches_Cat_inv in H as (at' & r2 & g3 & -> & A & H).
  apply Matches_lit_inv in A as (-> & _).
  apply Matches_Cat_inv in H as (dom & r3 & g4 & -> & D & H).
  apply Matches_Rep_inv in D as (D & Dn & _ & _).
  apply Matches_Cat_inv in H as (dot & tld & g5 & -> & P & T).
  apply Matches_lit_inv in P as (-> & _).
  apply Matches_Rep_inv in T as (T & Tn & _ & _).
  exists loc, dom, tld. repeat split; auto.
  - intros ->. cbn in Ln. lia.
  - intros ->. cbn in Dn. lia.
Qed.

Lemma emailFromDescription_sound (d : option string) (m : string) :
  emailFromDescription d = Some m ->
  exists t pre post, d = Some t /\ t = pre ++ m ++ post /\ emailShaped m.
Proof.
  unfold emailFromDescription. destruct d as [t|]; [|discriminate].
  destruct (truthy t); [|discriminate].
  destruct (exec emailRegex t) as [c|] eqn:E; [|discriminate].
  intros ->.
  destruct (exec_sound _ _ _ E) as (pre & a & post & -> & M).
  destruct (emailRegex_shape _ _ _ _ M) as (C & S).
  injection C as <-. now exists (pre ++ m ++ post), pre, post.
Qed.

Lemma phoneRegex_shape i a after c :
  Matches phoneRegex i a after None c ->
  exists label ws digits,
    a = label ++ ":" ++ ws ++ digits /\ c = Some digits /\
    (foldCases label = "phone" \/ foldCases label = "tel" \/
     foldCases label = "mobile") /\
    allOf isWhiteSpace ws = true /\
    allOf isPhoneChar digits = true.
Proof.
  unfold phoneRegex, plus, star. intros H.
  apply Matches_Cat_inv in H as (label & r1 & g1 & -> & L & H).
  apply Matches_Cat_inv in H as (colon & r2 & g2 & -> & C & H).
  apply Matches_lit_inv in C as (-> & ->).
  apply Matches_Cat_inv in H as (ws & digits & g3 & -> & W & D).
  apply Matches_Rep_inv in W as (W & _ & _ & ->).
  apply Matches_Grp_inv in D as (-> & g4 & D).
  apply Matches_Rep_inv in D as (D & _ & _ & _).
  exists label, ws, digits. repeat split; auto.
  apply Matches_Alt_inv in L as [L|L];
    [|apply Matches_Alt_inv in L as [L|L]];
    apply Matches_wordI_inv in L as (L & _); cbn in L; auto.
Qed.

Lemma phoneFromDescription_sound (d : option string) (p : string) :
  phoneFromDescription d = Some p ->
  exists t, d = Some t /\ phoneLabelled t p /\
            allOf isPhoneChar p = true /\ trim p = p.
Proof.
  unfold phoneFromDescription. destruct d as [t|]; [|discriminate].
  destruct (truthy t); [|discriminate].
  destruct (exec phoneRegex t) as [[m1|]|] eqn:E; try discriminate.
  destruct (truthy m1); [|discriminate].
  intros H. injection H as <-.
  destruct (exec_sound _ _ _ E) as (pre & a & post & -> & M).
  destruct (phoneRegex_shape _ _ _ _ M)
    as (label & ws & digits & -> & C & L & W & D).
  injection C as <-.
  eexists. split; [reflexivity|]. split; [|split].
  - exists pre, label, ws, m1, post. rewrite ?append_assoc.
    cbn [append]. rewrite ?append_assoc. repeat split; auto.
  - now apply trim_allOf.
  - apply trim_idem.
Qed.

(** The capture of [nameRegex]: the head of the text, of letters and
    white space, before white space and a dash, a parenthesis or the
    end. *)
Lemma nameRegex_shape (s : string) (m1 : string) :
  exec nameRegex s = Some (Some m1) ->
  exists ws tail,
    s = m1 ++ ws ++ tail /\
    allOf isNameChar m1 = true /\
    (2 <= String.length m1 <= 50)%nat /\
    allOf isWhiteSpace ws = true /\
    (tail = "" \/ startsWith tail "-" = true \/ startsWith tail "(" = true).
Proof.
  intros E. destruct (exec_sound _ _ _ E) as (pre & a & post & -> & M).
  unfold nameRegex, star in M.
  apply Matches_Cat_inv in M as (a0 & r1 & g1 & -> & B & M).
  apply Matches_Bol_inv in B as (Z & -> & ->).
  destruct pre; [|discriminate Z]. cbn [append String.length Nat.add] in *.
  apply Matches_Cat_inv in M as (n & r2 & g2 & -> & G & A).
  apply Matches_Grp_inv in G as (-> & g3 & G).
  apply Matches_Rep_inv in G as (G & Lo & Hi & _). cbn in Hi.
  assert (T : exists ws tail,
             r2 ++ post = ws ++ tail /\ Some n = Some m1 /\
             allOf isWhiteSpace ws = true /\
             (tail = "" \/ startsWith tail "-" = true \/
              startsWith tail "(" = true)).
  { apply Matches_Alt_inv in A as [A|A];
      [|apply Matches_Alt_inv in A as [A|A]].
    - apply Matches_Cat_inv in A as (ws & d & g4 & -> & W & D).
      apply Matches_Rep_inv in W as (W & _ & _ & ->).
      apply Matches_lit_inv in D as (-> & <-).
      exists ws, ("-" ++ post). rewrite append_assoc. cbn. auto 6.
    - apply Matches_Cat_inv in A as (ws & d & g4 & -> & W & D).
      apply Matches_Rep_inv in W as (W & _ & _ & ->).
      apply Matches_lit_inv in D as (-> & <-).
      exists ws, ("(" ++ post). rewrite append_assoc. cbn. auto 6.
    - apply Matches_Eol_inv in A as (-> & -> & <-).
      exists "", "". cbn. auto 6. }
  destruct T as (ws & tail & E' & C & W & T). injection C as <-.
  exists ws, tail. rewrite append_assoc, E'. repeat split; auto; lia.
Qed.

Lemma stopsAt_prefix (p : ascii -> bool) (a b : string) :
  a <> "" -> stopsAt p (a ++ b) = true -> stopsAt p a = true.
Proof. destruct a; [congruence|]. auto. Qed.

(** The two outcomes of the name logic on a trimmed summary. *)
Lemma nameFromSummary_cases (clean : string) :
  stopsAt isWhiteSpace clean = true ->
  (nameFromSummary clean = (clean ++ " - Please Update", true)) \/
  (exists n gap tail,
      nameFromSummary clean = (n, false) /\
      n <> "" /\ allOf isNameChar n = true /\
      (String.length n <= 50)%nat /\ trim n = n /\
      clean = n ++ gap ++ tail /\
      allOf isWhiteSpace gap = true /\
      (tail = "" \/ startsWith tail "-" = true \/ startsWith tail "(" = true)).
Proof.
  intros S. unfold nameFromSummary.
  destruct (exec nameRegex clean) as [[m1|]|] eqn:E; auto.
  destruct (truthy m1 && negb (includes (toLowerCase m1) "closed") &&
            negb (includes (toLowerCase m1) "blocked") &&
            negb (includes (toLowerCase m1) "unavailable"))%bool; auto.
  right.
  destruct (nameRegex_shape _ _ E) as (ws & tail & -> & A & [Lo Hi] & W & T).
  assert (N : m1 <> "") by (intros ->; cbn in Lo; lia).
  destruct (trim_of_stopped m1 N (stopsAt_prefix _ _ _ N S))
    as (Ne & b & Eb & B).
  exists (trim m1), (b ++ ws), tail.
  split; [reflexivity|]. split; [exact Ne|].
  split; [now apply trim_allOf|].
  split; [pose proof (trim_length m1); lia|].
  split; [apply trim_idem|].
  split; [rewrite <- !append_assoc, <- Eb; reflexivity|].
  split; [|exact T]. rewrite allOf_append. now rewrite B, W.
Qed.

End ExtractorFacts.

(** X1. Whatever the event, the extractor returns a name that is not
    empty and a guest count of at least one. *)
Theorem guest_info_is_populated (event : CalendarEvent) :
  name (extractGuestInfo event) <> "" /\
  1 <= guests (extractGuestInfo event).
Proof.
  unfold extractGuestInfo.
  destruct (isBlockedSummary (summary event)); [cbn; split; [discriminate|lia]|].
  destruct (truthy (summary event)); [|cbn; split; [discriminate|lia]].
  destruct (nameFromSummary_cases (trim (summary event)) (trim_stops _))
    as [E|(n & gap & tail & E & N & _)]; rewrite E; cbn.
  - split.
    + destruct (trim (summary event)); discriminate.
    + unfold guestsFromSummary.
      destruct (exec guestRegex (summary event)) as [[m1|]|]; try lia.
      destruct (truthy m1); lia.
  - split; [exact N|].
    unfold guestsFromSummary.
    destruct (exec guestRegex (summary event)) as [[m1|]|]; try lia.
    destruct (truthy m1); lia.
Qed.

(** X2. When the extractor does not set the placeholder flag, the summary
    is not on the block list and the name is the head of the trimmed
    summary: at most 50 letters and white-space characters, with no white
    space at either end, followed in the summary by white space and then
    a dash, an opening parenthesis or nothing. *)
Theorem real_guest_name_shape (event : CalendarEvent) :
  isPlaceholder (extractGuestInfo event) = false ->
  ~ containsKeyword (summary event) /\
  name (extractGuestInfo event) <> "" /\
  allOf isNameChar (name (extractGuestInfo event)) = true /\
  (String.length (name (extractGuestInfo event)) <= 50)%nat /\
  trim (name (extractGuestInfo event)) = name (extractGuestInfo event) /\
  exists gap tail,
    trim (summary event) = name (extractGuestInfo event) ++ gap ++ tail /\
    allOf isWhiteSpace gap = true /\
    (tail = "" \/ startsWith tail "-" = true \/ startsWith tail "(" = true).
Proof.
  unfold extractGuestInfo.
  destruct (isBlockedSummary (summary event)) eqn:B; [discriminate|].
  destruct (truthy (summary event)); [|discriminate].
  destruct (nameFromSummary_cases (trim (summary event)) (trim_stops _))
    as [E|(n & gap & tail & E & N & A & L & T & S & G & K)];
    rewrite E; cbn; [discriminate|].
  intros _. split.
  - intros C. apply isBlockedSummary_iff in C. congruence.
  - repeat split; auto. now exists gap, tail.
Qed.

Lemma real_guest_name_witness :
  name (extractGuestInfo (eventWithSummary "  Jane Roe (late arrival)"))
    = "Jane Roe" /\
  (String.length (name (extractGuestInfo
      (eventWithSummary "  Jane Roe (late arrival)"))) <= 50)%nat.
Proof.
  destruct (real_guest_name_shape
              (eventWithSummary "  Jane Roe (late arrival)") eq_refl)
    as (_ & _ & _ & L & _).
  split; [reflexivity | exact L].
Defined.

(** X3. An email that the extractor returns is text of the description
    and reads as an address: a local part, "@", a domain, ".", and at
    least two letters, each part in its class of characters. *)
Theorem extracted_email_is_an_address (event : CalendarEvent) (m : string) :
  email (extractGuestInfo event) = Some m ->
  emailShaped m /\
  exists d pre post, description event = Some d /\ d = pre ++ m ++ post.
Proof.
  unfold extractGuestInfo.
  destruct (if isBlockedSummary (summary event) then _ else _) as [[n g] p].
  cbn [email]. intros H. apply orUndefined_Some in H as [H _].
  destruct (emailFromDescription_sound _ _ H) as (t & pre & post & D & E & S).
  split; [exact S|]. now exists t, pre, post.
Qed.

Lemma extracted_email_witness :
  emailShaped "jane.roe@example.org".
Proof.
  exact (proj1 (extracted_email_is_an_address
                  (describedEvent "Jane Roe"
                     "Contact: jane.roe@example.org, tel: +1 (555) 010-9999 ")
                  "jane.roe@example.org" eq_refl)).
Defined.

(** X4. A phone number that the extractor returns is not empty, has no
    white space at either end, is made of the characters "+", "-", "(",
    ")", digits and white space, and is the trimmed run of such
    characters that follows "phone:", "tel:" or "mobile:" (in any case)
    and white space in the description. *)
Theorem extracted_phone_follows_a_label (event : CalendarEvent) (p : string) :
  phone (extractGuestInfo event) = Some p ->
  p <> "" /\ trim p = p /\ allOf isPhoneChar p = true /\
  exists d, description event = Some d /\ phoneLabelled d p.
Proof.
  unfold extractGuestInfo.
  destruct (if isBlockedSummary (summary event) then _ else _) as [[n g] q].
  cbn [phone]. intros H. apply orUndefined_Some in H as [H N].
  destruct (phoneFromDescription_sound _ _ H) as (t & D & L & A & T).
  repeat split; auto. now exists t.
Qed.

Lemma extracted_phone_witness :
  trim "+1 (555) 010-9999" = "+1 (555) 010-9999".
Proof.
  exact (proj1 (proj2 (extracted_phone_follows_a_label
                  (describedEvent "Jane Roe"
                     "Contact: jane.roe@example.org, tel: +1 (555) 010-9999 ")
                  "+1 (555) 010-9999" eq_refl))).
Defined.

Section PlainNames.

(** A quantifier takes the whole of a text inside its class when the
    bounds allow it and what follows accepts the end of the text. *)
Lemma rep_all (p : ascii -> bool) (k : cont) (m : mstate) :
  forall s lo hi i g,
    allOf p s = true -> (lo <= String.length s)%nat ->
    withinBound hi (String.length s) ->
    k (MState (i + String.length s) "" g) = Some m ->
    rep p lo hi i s g k = Some m.
Proof.
  induction s as [|c t IH]; intros lo hi i g A L B K; cbn [rep].
  - cbn in L, K. rewrite Nat.add_0_r in K. destruct lo; [exact K|lia].
  - cbn in A. apply andb_true_iff in A as [C A]. rewrite C.
    assert (X : exhausted hi = false).
    { destruct hi as [[|h]|]; cbn in *; [lia| |]; reflexivity. }
    rewrite X. cbn [andb negb].
    rewrite (IH (Nat.pred lo) (decr hi) (S i) g); [reflexivity|exact A| | |].
    + cbn in L. lia.
    + destruct hi as [h|]; cbn in *; [lia|exact I].
    + cbn in K. now rewrite <- plus_n_Sm in K.
Qed.

Lemma take_all (s : string) : take (String.length s) s = s.
Proof. induction s as [|c s IH]; cbn; congruence. Qed.

Lemma nameRegex_plain (s : string) :
  allOf isNameChar s = true -> (2 <= String.length s <= 50)%nat ->
  exec nameRegex s = Some (Some s).
Proof.
  intros A [Lo Hi].
  assert (R : run nameRegex (MState 0 s None) Some
              = Some (MState (String.length s) "" (Some s))).
  { unfold nameRegex. cbn [run pos rest group1 Nat.eqb].
    apply rep_all; [exact A|exact Lo|exact Hi|].
    cbn. now rewrite Nat.sub_0_r, take_all. }
  unfold exec. destruct s; cbn [search]; now rewrite R.
Qed.

Lemma containsKeyword_trim (s : string) :
  containsKeyword (trim s) -> containsKeyword s.
Proof.
  intros (kw & pre & w & post & K & E & W).
  destruct (trim_split s) as (a & b & S & _).
  exists kw, (a ++ pre), w, (post ++ b). split; [exact K|]. split; [|exact W].
  rewrite S at 1. rewrite E. now rewrite !append_assoc.
Qed.

Lemma keyword_free (s kw : string) :
  ~ containsKeyword s -> In kw closureKeywords ->
  includes (toLowerCase s) kw = false.
Proof.
  intros N K. destruct (includes (toLowerCase s) kw) eqn:I; [|reflexivity].
  exfalso. apply N. apply isBlockedSummary_iff.
  unfold isBlockedSummary. apply andb_true_iff. split.
  - apply (includes_truthy s kw I).
    cbn in K. intuition (subst; discriminate).
  - cbn in K. destruct K as [<-|[<-|[<-|[<-|[]]]]]; rewrite I;
      now rewrite ?orb_true_r.
Qed.

Lemma digit_is_no_name_char (c : ascii) :
  isDigit c = true -> isNameChar c = false.
Proof.
  destruct c as [[] [] [] [] [] [] [] []]; vm_compute; congruence.
Qed.

Lemma allOf_middle (p : ascii -> bool) (a b : string) (c : ascii) :
  allOf p (a ++ String c b) = true -> p c = true.
Proof.
  rewrite allOf_append. cbn. intros H.
  apply andb_true_iff in H as [_ H]. now apply andb_true_iff in H as [H _].
Qed.

(** Without a digit there is no guest count to find. *)
Lemma guestsFromSummary_plain (s : string) :
  allOf isNameChar s = true -> guestsFromSummary s = 1.
Proof.
  intros A. unfold guestsFromSummary.
  destruct (exec guestRegex s) as [c|] eqn:E; [|reflexivity].
  exfalso. destruct (exec_sound _ _ _ E) as (pre & a & post & -> & M).
  unfold guestRegex, plus in M.
  apply Matches_Cat_inv in M as (ds & r & g & -> & D & _).
  apply Matches_Grp_inv in D as (_ & g' & D).
  apply Matches_Rep_inv in D as (D & L & _).
  destruct ds as [|d ds]; [cbn in L; lia|].
  cbn in D. apply andb_true_iff in D as [D _].
  cbn [append] in A. apply allOf_middle in A.
  apply digit_is_no_name_char in D. congruence.
Qed.

Lemma whiteSpace_is_name_char (s : string) :
  allOf isWhiteSpace s = true -> allOf isNameChar s = true.
Proof.
  induction s as [|c s IH]; cbn [allOf]; [reflexivity|]. intros H.
  apply andb_true_iff in H as [C H]. apply andb_true_iff. split.
  - unfold isNameChar. now rewrite C, orb_true_r.
  - now apply IH.
Qed.

End PlainNames.

(** X5. A summary that, once trimmed, is 2 to 50 letters and white-space
    characters and holds no closure keyword is taken as the guest's name:
    the name is the trimmed summary, the placeholder flag is off and the
    guest count is 1. *)
Theorem plain_summary_is_the_name (event : CalendarEvent) :
  ~ containsKeyword (summary event) ->
  allOf isNameChar (trim (summary event)) = true ->
  (2 <= String.length (trim (summary event)) <= 50)%nat ->
  name (extractGuestInfo event) = trim (summary event) /\
  isPlaceholder (extractGuestInfo event) = false /\
  guests (extractGuestInfo event) = 1.
Proof.
  intros NK A L.
  assert (B : isBlockedSummary (summary event) = false).
  { destruct (isBlockedSummary (summary event)) eqn:B; [|reflexivity].
    now apply isBlockedSummary_iff in B. }
  assert (NE : trim (summary event) <> "").
  { intros E. rewrite E in L. cbn in L. lia. }
  assert (T : truthy (summary event) = true).
  { apply truthy_iff. intros E. apply NE. now rewrite E. }
  assert (NK' : ~ containsKeyword (trim (summary event))).
  { intros C. now apply NK, containsKeyword_trim. }
  assert (G : guestsFromSummary (summary event) = 1).
  { apply guestsFromSummary_plain.
    destruct (trim_split (summary event)) as (a & b & E & Wa & Wb).
    rewrite E, !allOf_append, A.
    now rewrite (whiteSpace_is_name_char a Wa), (whiteSpace_is_name_char b Wb). }
  unfold extractGuestInfo. rewrite B, T.
  unfold nameFromSummary. rewrite (nameRegex_plain _ A L).
  apply truthy_iff in NE. rewrite NE.
  rewrite !(keyword_free _ _ NK') by (cbn; auto).
  cbn. rewrite trim_idem, G. auto.
Qed.

Lemma plain_summary_witness :
  name (extractGuestInfo (eventWithSummary " Jane Roe ")) = "Jane Roe".
Proof.
  refine (proj1 (plain_summary_is_the_name (eventWithSummary " Jane Roe ") _ _ _)).
  - intros C. apply isBlockedSummary_iff in C. vm_compute in C. discriminate.
  - reflexivity.
  - vm_compute. split; lia.
Defined.

(** ** The accounts of a pass *)

Section PassAccounts.

Variable rt : Runtime.
Variable propertyId : string.

Lemma matchesKey_synced (u : string) (b : Booking) :
  matchesKey propertyId u b = true -> syncedRowOf propertyId b = true.
Proof.
  unfold matchesKey, syncedRowOf. intros H.
  apply andb_true_iff in H as [-> H]. now destruct (external_id b).
Qed.

Lemma same_id_same_row (l : list Booking) (x y : Booking) :
  NoDup (map booking_id l) -> In x l -> In y l ->
  booking_id x = booking_id y -> x = y.
Proof.
  induction l as [|z l IH]; cbn; [contradiction|].
  intros N Hx Hy E. apply NoDup_cons_iff in N as [Z N].
  destruct Hx as [<-|Hx], Hy as [<-|Hy]; auto.
  - exfalso. apply Z. rewrite E. now apply in_map.
  - exfalso. apply Z. rewrite <- E. now apply in_map.
Qed.

Lemma ids_afterUpdate (bid : string) (event : CalendarEvent) (w : World) :
  map booking_id (bookings (afterUpdate rt bid event w))
  = map booking_id (bookings w).
Proof.
  cbn [afterUpdate bookings]. rewrite map_map. apply map_ext.
  intros b. now destruct (String.eqb (booking_id b) bid).
Qed.

Lemma validEvents_cons (e : CalendarEvent) (l : list CalendarEvent) :
  validEvents (e :: l)
  = if 0 <? nightsOf e then e :: validEvents l else validEvents l.
Proof. reflexivity. Qed.

Lemma invalidEvents_cons (e : CalendarEvent) (l : list CalendarEvent) :
  invalidEvents (e :: l)
  = if 0 <? nightsOf e then invalidEvents l else e :: invalidEvents l.
Proof.
  unfold invalidEvents. cbn [filter].
  destruct (Z.ltb_spec 0 (nightsOf e)), (Z.leb_spec (nightsOf e) 0);
    try reflexivity; lia.
Qed.

Lemma events_split (l : list CalendarEvent) :
  (List.length (validEvents l) + List.length (invalidEvents l)
   = List.length l)%nat.
Proof.
  induction l as [|e l IH]; [reflexivity|].
  rewrite validEvents_cons, invalidEvents_cons.
  destruct (0 <? nightsOf e); cbn [List.length]; lia.
Qed.

(** One event: the three ways through [processCalendarEvent]. *)
Lemma process_cases (event : CalendarEvent) (result : SyncResult) (w : World) :
  (nightsOf event <= 0 /\
   processCalendarEvent rt propertyId event result w
   = (Returned (pushError result (rangeError event)), w)) \/
  (0 < nightsOf event /\
   exists b0, In b0 (bookings w) /\
              matchesKey propertyId (uid event) b0 = true /\
              processCalendarEvent rt propertyId event result w
              = (Returned (countUpdated result),
                 afterUpdate rt (booking_id b0) event w)) \/
  (0 < nightsOf event /\
   existingFor propertyId (uid event) w = [] /\
   processCalendarEvent rt propertyId event result w
   = (Returned (countCreated result), afterCreate rt propertyId event w)).
Proof.
  destruct (Z.lt_ge_cases 0 (nightsOf event)) as [N|N].
  - right. destruct (existingFor propertyId (uid event) w) as [|b0 others] eqn:E.
    + right. split; [exact N|]. split; [reflexivity|].
      now apply process_create.
    + left. split; [exact N|]. exists b0.
      assert (I : In b0 (existingFor propertyId (uid event) w))
        by (rewrite E; now left).
      apply filter_In in I as [I M]. split; [exact I|]. split; [exact M|].
      exact (process_update rt _ _ _ _ b0 others N E).
  - left. split; [exact N|]. now apply process_invalid.
Qed.

(** The loop over the events: what it counts, what it records, and what
    it does to the table of bookings. *)
Lemma processEvents_account (events : list CalendarEvent) :
  forall (result : SyncResult) (w : World),
  exists result' w' news,
    processEvents rt propertyId events result w = (Returned result', w') /\
    bookingsCreated result' =
      bookingsCreated result + Z.of_nat (List.length news) /\
    bookingsCreated result' + bookingsUpdated result' =
      bookingsCreated result + bookingsUpdated result
      + Z.of_nat (List.length (validEvents events)) /\
    bookingsSkipped result' = bookingsSkipped result /\
    errors result' =
      (errors result ++ map rangeError (invalidEvents events))%list /\
    map booking_id (bookings w') = (map booking_id (bookings w) ++ news)%list /\
    properties w' = properties w /\
    requests w' = requests w /\
    (clockReads w <= clockReads w')%nat /\
    (NoDup (map booking_id (bookings w')) ->
     forall b, In b (bookings w) -> syncedRowOf propertyId b = false ->
               In b (bookings w')).
Proof.
  induction events as [|event more IH]; intros result w.
  - exists result, w, []. cbn. rewrite !app_nil_r. repeat split; auto; lia.
  - cbn [processEvents]. unfold bind at 1, tryCatch.
    rewrite validEvents_cons, invalidEvents_cons.
    destruct (process_cases event result w)
      as [(N & E)|[(N & b0 & I & M & E)|(N & X & E)]]; rewrite E.
    + destruct (IH (pushError result (rangeError event)) w)
        as (r' & w' & news & P & C & S & K & R & B & Pr & Rq & Ck & F).
      exists r', w', news. rewrite P.
      destruct (Z.ltb_spec 0 (nightsOf event)); [lia|].
      cbn in C, S, K, R. rewrite <- app_assoc in R. cbn [map].
      repeat split; auto.
    + destruct (IH (countUpdated result) (afterUpdate rt (booking_id b0) event w))
        as (r' & w' & news & P & C & S & K & R & B & Pr & Rq & Ck & F).
      exists r', w', news. rewrite P.
      destruct (Z.ltb_spec 0 (nightsOf event)); [|lia].
      cbn in C, S, K, R. rewrite ids_afterUpdate in B.
      cbn [afterUpdate clockReads] in Ck.
      cbn [List.length]. repeat split; auto; try lia.
      intros ND b Ib Sb. apply (F ND); [|exact Sb].
      cbn [afterUpdate bookings]. apply in_map_iff. exists b. split; [|exact Ib].
      destruct (String.eqb (booking_id b) (booking_id b0)) eqn:Q; [|reflexivity].
      exfalso. apply String.eqb_eq in Q.
      assert (ND0 : NoDup (map booking_id (bookings w))).
      { rewrite B in ND. now apply NoDup_app_remove_r in ND. }
      rewrite (same_id_same_row _ _ _ ND0 Ib I Q) in Sb.
      apply matchesKey_synced in M. congruence.
    + destruct (IH (countCreated result) (afterCreate rt propertyId event w))
        as (r' & w' & news & P & C & S & K & R & B & Pr & Rq & Ck & F).
      exists r', w', (uuid rt (generated w) :: news). rewrite P.
      destruct (Z.ltb_spec 0 (nightsOf event)); [|lia].
      cbn in C, S, K, R. cbn [afterCreate bookings] in B.
      rewrite map_app, <- app_assoc in B. cbn [map app createdFor newBooking
        booking_id] in B.
      cbn [afterCreate clockReads] in Ck.
      cbn [List.length]. repeat split; auto; try lia.
      intros ND b Ib Sb. apply (F ND); [|exact Sb].
      cbn [afterCreate bookings]. apply in_or_app. now left.
Qed.

End PassAccounts.

Section PassFacts.

Variable rt : Runtime.
Variable propertyId : string.

(** A pass over a stored property whose calendar was fetched: the result
    and the world in terms of the loop. *)
Lemma pass_completed (url : string) (w : World) (events : list CalendarEvent) :
  storedProperty propertyId w <> None ->
  fetchedFrom rt (network rt (List.length (requests w)) url) = Returned events ->
  exists r w1,
    processEvents rt propertyId events newResult (afterRequest url w)
      = (Returned r, w1) /\
    syncPropertyCalendarWithUrl rt propertyId url w
      = (Returned (finish r), afterTouch rt propertyId w1).
Proof.
  intros S F.
  destruct (processEvents_account rt propertyId events newResult
              (afterRequest url w)) as (r & w1 & news & P & _).
  exists r, w1. split; [exact P|].
  rewrite syncPropertyCalendarWithUrl_eq.
  destruct (storedProperty propertyId w); [|congruence].
  now rewrite F, P.
Qed.

Lemma touch_settings (t : Z) (l : list Property) :
  map syncSettings (map (touch t propertyId) l) = map syncSettings l.
Proof.
  rewrite map_map. apply map_ext. intros p. unfold touch.
  now destruct (String.eqb (p_id p) propertyId).
Qed.

End PassFacts.

(** X6. The parser returns one event for each complete entry that
    node-ical hands over, in the order in which the object of node-ical
    lists its entries: the list of events runs parallel to the list of
    the complete entries, each event made from its entry, and every event
    has a uid that is not empty. *)
Theorem parser_keeps_entry_order (rt : Runtime) (icalData : string)
    (parsed : list (string * Component)) :
  parseICS rt icalData = Returned parsed ->
  exists events,
    parseICalData rt icalData = Returned events /\
    Forall2 madeFrom
      (map snd (filter (fun kv => isComplete (snd kv)) parsed)) events /\
    Forall (fun e => uid e <> "") events.
Proof.
  intros P. unfold parseICalData. rewrite P. eexists. split; [reflexivity|].
  clear P. induction parsed as [|[key v] more [IH1 IH2]];
    [split; constructor|].
  change ((key, v) :: more) with ([(key, v)] ++ more)%list.
  rewrite collectEvents_app. cbn [app filter snd].
  destruct (isComplete v) eqn:C.
  - destruct (collectEvents_keep key v C) as (e & -> & M & U).
    cbn [map app snd]. split; now constructor.
  - rewrite (collectEvents_skip key v C). now split.
Qed.

Lemma parser_keeps_entry_order_witness :
  exists events,
    parseICalData sampleRuntime "BEGIN:VCALENDAR" = Returned events /\
    Forall2 madeFrom
      (map snd (filter (fun kv => isComplete (snd kv)) sampleCalendar)) events /\
    Forall (fun e => uid e <> "") events.
Proof.
  exact (parser_keeps_entry_order sampleRuntime "BEGIN:VCALENDAR"
           sampleCalendar eq_refl).
Defined.

(** The outcomes of a download, for the callers of [downloadICalData]. *)
Lemma downloadICalData_cases (rt : Runtime) (url : string) (w : World) :
  exists out w',
    downloadICalData rt url w = (out, w') /\
    properties w' = properties w /\ bookings w' = bookings w /\
    generated w' = generated w /\ clockReads w' = clockReads w /\
    (forall msg,
       network rt (List.length (requests w)) url = HttpUnsent msg ->
       requests w' = requests w) /\
    ((forall msg,
        network rt (List.length (requests w)) url <> HttpUnsent msg) ->
     requests w' = (requests w ++ [url])%list) /\
    (forall events, out = Returned events ->
       requests w' = (requests w ++ [url])%list /\
       exists data parsed,
         network rt (List.length (requests w)) url = HttpResponse 200 data /\
         parseICS rt data = Returned parsed /\
         events = collectEvents parsed []) /\
    (forall msg, out = Thrown msg ->
       startsWith msg "Failed to download iCal data: " = true).
Proof.
  rewrite downloadICalData_eq. eexists _, _. split; [reflexivity|].
  unfold fetchedFrom, afterAnswer.
  destruct (network rt (List.length (requests w)) url) as [status data|m|m].
  - do 4 (split; [reflexivity|]). split; [discriminate|].
    split; [reflexivity|].
    destruct ((200 <=? status) && (status <? 300))%bool.
    + destruct (Z.eqb_spec status 200) as [->|N].
      * destruct (parseICS rt data) as [parsed|m] eqn:P; split;
          try discriminate.
        -- intros events E. injection E as <-. split; [reflexivity|].
           now exists data, parsed.
        -- intros msg E. injection E as <-.
           exact (startsWith_append "Failed to download iCal data: " _).
      * split; [discriminate|].
        intros msg E. injection E as <-.
        exact (startsWith_append "Failed to download iCal data: " _).
    + split; [discriminate|].
      intros msg E. injection E as <-.
      exact (startsWith_append "Failed to download iCal data: " _).
  - do 4 (split; [reflexivity|]). split; [discriminate|].
    split; [reflexivity|]. split; [discriminate|].
    intros msg E. injection E as <-.
    exact (startsWith_append "Failed to download iCal data: " _).
  - do 4 (split; [reflexivity|]). split; [reflexivity|].
    split; [intros H; now destruct (H m)|]. split; [discriminate|].
    intros msg E. injection E as <-.
    exact (startsWith_append "Failed to download iCal data: " _).
Qed.

(** X7. [downloadICalData] touches no table and sends one request, or
    none when axios refuses the URL before it sends anything. It returns
    events only for a request that was sent and answered with the status
    200 and a body that the parser accepts, and the message of everything
    it throws starts with "Failed to download iCal data: ". *)
Theorem download_outcomes (rt : Runtime) (url : string) (w : World) :
  exists out w',
    downloadICalData rt url w = (out, w') /\
    properties w' = properties w /\ bookings w' = bookings w /\
    generated w' = generated w /\ clockReads w' = clockReads w /\
    (forall msg,
       network rt (List.length (requests w)) url = HttpUnsent msg ->
       requests w' = requests w) /\
    ((forall msg,
        network rt (List.length (requests w)) url <> HttpUnsent msg) ->
     requests w' = (requests w ++ [url])%list) /\
    (forall events, out = Returned events ->
       requests w' = (requests w ++ [url])%list /\
       exists data parsed,
         network rt (List.length (requests w)) url = HttpResponse 200 data /\
         parseICS rt data = Returned parsed /\
         events = collectEvents parsed []) /\
    (forall msg, out = Thrown msg ->
       startsWith msg "Failed to download iCal data: " = true).
Proof. exact (downloadICalData_cases rt url w). Qed.

(** X8. A pass over a stored property that fetches its calendar and runs
    to its end accounts for every event once: an event is counted as
    created, counted as updated, or leaves one error, so that created
    plus updated plus the number of errors is the number of events.
    Every event with an invalid date range has its error in the list,
    nothing is counted as skipped, and the pass is a success exactly when
    it has no error. No booking is deleted: the row ids of the table are
    the old ones followed by one new id for each created booking. *)
Theorem pass_accounts (rt : Runtime) (propertyId url : string) (w : World)
    (events : list CalendarEvent) :
  storedProperty propertyId w <> None ->
  fetchedFrom rt (network rt (List.length (requests w)) url) = Returned events ->
  exists result w' news,
    syncPropertyCalendarWithUrl rt propertyId url w = (Returned result, w') /\
    bookingsCreated result + bookingsUpdated result
      + Z.of_nat (List.length (errors result))
      = Z.of_nat (List.length events) /\
    bookingsCreated result = Z.of_nat (List.length news) /\
    bookingsSkipped result = 0 /\
    (forall e, In e events -> nightsOf e <= 0 ->
               In (rangeError e) (errors result)) /\
    (success result = true <-> errors result = []) /\
    map booking_id (bookings w') = (map booking_id (bookings w) ++ news)%list.
Proof.
  intros S F.
  destruct (pass_completed rt propertyId url w events S F) as (r & w1 & P & E).
  destruct (processEvents_account rt propertyId events newResult
              (afterRequest url w))
    as (r' & w1' & news & P' & C & A & K & R & B & _).
  rewrite P in P'. injection P' as <- <-.
  exists (finish r), (afterTouch rt propertyId w1), news.
  split; [exact E|]. cbn in C, A, K, R, B. cbn.
  split; [|split; [exact C|split; [exact K|split; [|split; [|exact B]]]]].
  - rewrite R, length_map.
    pose proof (events_split events) as L. lia.
  - intros e I N. rewrite R. apply in_map_iff. exists e.
    split; [reflexivity|]. apply filter_In.
    split; [exact I|]. now apply Z.leb_le.
  - split.
    + intros H. apply Nat.eqb_eq in H. now apply length_zero_iff_nil.
    + intros ->. reflexivity.
Qed.

Lemma pass_accounts_witness :
  exists result w' news,
    syncPropertyCalendarWithUrl sampleRuntime "prop-1"
      "https://example.org/cal.ics" mixedWorld = (Returned result, w') /\
    bookingsCreated result + bookingsUpdated result
      + Z.of_nat (List.length (errors result)) = 2 /\
    bookingsCreated result = Z.of_nat (List.length news) /\
    bookingsSkipped result = 0 /\
    (forall e, In e (collectEvents sampleCalendar []) -> nightsOf e <= 0 ->
               In (rangeError e) (errors result)) /\
    (success result = true <-> errors result = []) /\
    map booking_id (bookings w') = (["bk-7"; "bk-8"; "bk-1"] ++ news)%list.
Proof.
  apply (pass_accounts sampleRuntime "prop-1" "https://example.org/cal.ics"
           mixedWorld (collectEvents sampleCalendar [])).
  - discriminate.
  - reflexivity.
Defined.

(** X9. A pass spares the rows that are not calendar bookings of its
    property: when row ids are unique in the table after the pass, every
    row of another property and every row without an external id is in
    the table after the pass as it was before. *)
Theorem pass_spares_other_rows (rt : Runtime) (propertyId url : string)
    (w w' : World) (out : Outcome SyncResult) (b : Booking) :
  syncPropertyCalendarWithUrl rt propertyId url w = (out, w') ->
  uniqueIds w' ->
  In b (bookings w) ->
  syncedRowOf propertyId b = false ->
  In b (bookings w').
Proof.
  rewrite syncPropertyCalendarWithUrl_eq. intros E U I S.
  destruct (storedProperty propertyId w); [|injection E as _ <-; exact I].
  destruct (fetchedFrom rt _) as [events|msg];
    [|injection E as _ <-;
      now rewrite (proj2 (afterAnswer_tables _ url w))].
  destruct (processEvents_account rt propertyId events newResult
              (afterRequest url w))
    as (r & w1 & news & P & _ & _ & _ & _ & _ & _ & _ & _ & F).
  rewrite P in E. injection E as _ <-. cbn [afterTouch bookings].
  apply F; [exact U|exact I|exact S].
Qed.

Lemma pass_spares_other_rows_witness :
  In manualBooking
     (bookings (snd (syncPropertyCalendarWithUrl sampleRuntime "prop-1"
                       "https://example.org/cal.ics" mixedWorld))) /\
  In foreignBooking
     (bookings (snd (syncPropertyCalendarWithUrl sampleRuntime "prop-1"
                       "https://example.org/cal.ics" mixedWorld))).
Proof.
  assert (U : uniqueIds (snd (syncPropertyCalendarWithUrl sampleRuntime "prop-1"
                                "https://example.org/cal.ics" mixedWorld))).
  { unfold uniqueIds. vm_compute.
    repeat (constructor; [cbn; intuition discriminate|]). constructor. }
  split.
  - refine (pass_spares_other_rows sampleRuntime "prop-1"
              "https://example.org/cal.ics" mixedWorld _ _ manualBooking
              (surjective_pairing _) U _ eq_refl).
    cbn. auto.
  - refine (pass_spares_other_rows sampleRuntime "prop-1"
              "https://example.org/cal.ics" mixedWorld _ _ foreignBooking
              (surjective_pairing _) U _ eq_refl).
    cbn. auto.
Defined.

(** X10. A pass that does not find the property, or whose download
    fails, changes no table: the bookings and the properties, with their
    [last_sync_at], are as before, and the result is a failure with no
    booking counted and one error. For a property that is not found the
    error is "Property not found" and nothing is requested; for a failed
    download it is "Sync failed: " followed by the message of the
    download, and the one request is logged unless axios refused the URL
    before sending. *)
Theorem failed_pass_changes_no_table (rt : Runtime) (propertyId url : string)
    (w : World) :
  storedProperty propertyId w = None \/
  (exists msg,
     fetchedFrom rt (network rt (List.length (requests w)) url) = Thrown msg) ->
  exists result w',
    syncPropertyCalendarWithUrl rt propertyId url w = (Returned result, w') /\
    success result = false /\
    bookingsCreated result = 0 /\ bookingsUpdated result = 0 /\
    bookings w' = bookings w /\ properties w' = properties w /\
    (storedProperty propertyId w = None ->
     errors result = ["Property not found"] /\ w' = w) /\
    (forall msg,
       storedProperty propertyId w <> None ->
       fetchedFrom rt (network rt (List.length (requests w)) url) = Thrown msg ->
       errors result = ["Sync failed: " ++ msg] /\
       (forall m,
          network rt (List.length (requests w)) url = HttpUnsent m ->
          requests w' = requests w) /\
       ((forall m,
           network rt (List.length (requests w)) url <> HttpUnsent m) ->
        requests w' = (requests w ++ [url])%list)).
Proof.
  intros H. rewrite syncPropertyCalendarWithUrl_eq.
  destruct (storedProperty propertyId w) as [p|].
  - destruct H as [H|(msg & H)]; [discriminate|]. rewrite H.
    eexists _, _. split; [reflexivity|].
    destruct (afterAnswer_tables
                (network rt (List.length (requests w)) url) url w) as [TP TB].
    cbn [success bookingsCreated bookingsUpdated pushError newResult errors app].
    do 3 (split; [reflexivity|]). split; [exact TB|]. split; [exact TP|].
    split; [congruence|].
    intros m _ E. injection E as <-. split; [reflexivity|].
    unfold afterAnswer.
    destruct (network rt (List.length (requests w)) url) as [st d|f|u].
    + split; [discriminate|reflexivity].
    + split; [discriminate|reflexivity].
    + split; [reflexivity|]. intros N. now destruct (N u).
  - eexists _, _. split; [reflexivity|]. cbn.
    repeat split; auto; congruence.
Qed.

Lemma failed_pass_witness :
  exists result w',
    syncPropertyCalendarWithUrl sampleRuntime "prop-1"
      "https://example.org/down" sampleWorld = (Returned result, w') /\
    success result = false /\
    bookingsCreated result = 0 /\ bookingsUpdated result = 0 /\
    bookings w' = bookings sampleWorld /\
    properties w' = properties sampleWorld /\
    (storedProperty "prop-1" sampleWorld = None ->
     errors result = ["Property not found"] /\ w' = sampleWorld) /\
    (forall msg,
       storedProperty "prop-1" sampleWorld <> None ->
       fetchedFrom sampleRuntime
         (network sampleRuntime (List.length (requests sampleWorld))
            "https://example.org/down") = Thrown msg ->
       errors result = ["Sync failed: " ++ msg] /\
       (forall m,
          network sampleRuntime (List.length (requests sampleWorld))
            "https://example.org/down" = HttpUnsent m ->
          requests w' = requests sampleWorld) /\
       ((forall m,
           network sampleRuntime (List.length (requests sampleWorld))
             "https://example.org/down" <> HttpUnsent m) ->
        requests w' = (requests sampleWorld ++ ["https://example.org/down"])%list)).
Proof.
  apply (failed_pass_changes_no_table sampleRuntime "prop-1"
           "https://example.org/down" sampleWorld).
  right. eexists. reflexivity.
Defined.

(** X11. A pass over a stored property whose calendar was fetched sets
    [last_sync_at] of the property to a reading of the clock taken during
    the pass, also when events were rejected. The rows of the other
    properties are as before, and no row changes its id, its calendar URL
    or its sync flag. *)
Theorem pass_stamps_the_property (rt : Runtime) (propertyId url : string)
    (w : World) (events : list CalendarEvent) :
  storedProperty propertyId w <> None ->
  fetchedFrom rt (network rt (List.length (requests w)) url) = Returned events ->
  exists result w' n,
    syncPropertyCalendarWithUrl rt propertyId url w = (Returned result, w') /\
    (clockReads w <= n < clockReads w')%nat /\
    map syncSettings (properties w') = map syncSettings (properties w) /\
    (forall p, In p (properties w') -> p_id p = propertyId ->
               last_sync_at p = Some (clock rt n)) /\
    (forall p, In p (properties w) -> p_id p <> propertyId ->
               In p (properties w')).
Proof.
  intros S F.
  destruct (pass_completed rt propertyId url w events S F) as (r & w1 & P & E).
  destruct (processEvents_account rt propertyId events newResult
              (afterRequest url w))
    as (r' & w1' & news & P' & _ & _ & _ & _ & _ & Pr & _ & Ck & _).
  rewrite P in P'. injection P' as <- <-.
  exists (finish r), (afterTouch rt propertyId w1), (clockReads w1).
  split; [exact E|]. cbn [afterTouch properties clockReads].
  cbn [afterRequest clockReads properties] in Ck, Pr. rewrite Pr.
  split; [lia|]. split; [apply touch_settings|]. split.
  - intros p I Q. apply in_map_iff in I as (q & <- & _).
    unfold touch in *. destruct (String.eqb (p_id q) propertyId) eqn:X;
      [reflexivity|].
    apply String.eqb_neq in X. contradiction.
  - intros p I Q. apply in_map_iff. exists p. split; [|exact I].
    unfold touch. apply String.eqb_neq in Q. now rewrite Q.
Qed.

Lemma pass_stamps_the_property_witness :
  exists result w' n,
    syncPropertyCalendarWithUrl sampleRuntime "prop-1"
      "https://example.org/cal.ics" disabledWorld = (Returned result, w') /\
    (clockReads disabledWorld <= n < clockReads w')%nat /\
    map syncSettings (properties w')
      = map syncSettings (properties disabledWorld) /\
    (forall p, In p (properties w') -> p_id p = "prop-1" ->
               last_sync_at p = Some (clock sampleRuntime n)) /\
    (forall p, In p (properties disabledWorld) -> p_id p <> "prop-1" ->
               In p (properties w')).
Proof.
  apply (pass_stamps_the_property sampleRuntime "prop-1"
           "https://example.org/cal.ics" disabledWorld
           (collectEvents sampleCalendar [])).
  - discriminate.
  - reflexivity.
Defined.

(** ** The bulk sync, the scheduler and the routes *)

Section BulkSync.

Variable rt : Runtime.

Lemma pass_outline (propertyId url : string) (w : World) :
  exists r w' news,
    syncPropertyCalendarWithUrl rt propertyId url w = (Returned r, w') /\
    map syncSettings (properties w') = map syncSettings (properties w) /\
    map booking_id (bookings w') = (map booking_id (bookings w) ++ news)%list /\
    (w' = w \/ requests w' = (requests w ++ [url])%list).
Proof.
  rewrite syncPropertyCalendarWithUrl_eq.
  destruct (storedProperty propertyId w).
  - destruct (fetchedFrom rt _) as [events|msg].
    + destruct (processEvents_account rt propertyId events newResult
                  (afterRequest url w))
        as (r & w1 & news & P & _ & _ & _ & _ & B & Pr & Rq & _).
      rewrite P. exists (finish r), (afterTouch rt propertyId w1), news.
      split; [reflexivity|]. cbn [afterTouch properties bookings requests].
      rewrite touch_settings, Pr. repeat split; auto.
    + eexists _, _, []. split; [reflexivity|].
      destruct (afterAnswer_tables
                  (network rt (List.length (requests w)) url) url w) as [TP TB].
      rewrite TP, TB, app_nil_r. repeat split; auto.
      unfold afterAnswer.
      destruct (network rt (List.length (requests w)) url); auto.
  - eexists _, _, []. split; [reflexivity|]. rewrite app_nil_r. auto.
Qed.

Lemma syncPropertyCalendar_outline (propertyId : string) (w : World) :
  exists r w' news,
    syncPropertyCalendar rt propertyId w = (Returned r, w') /\
    map syncSettings (properties w') = map syncSettings (properties w) /\
    map booking_id (bookings w') = (map booking_id (bookings w) ++ news)%list /\
    (w' = w \/
     exists url, syncedFromUrl w url /\
                 requests w' = (requests w ++ [url])%list).
Proof.
  unfold syncPropertyCalendar, tryCatch, bind, selectProperty, ret.
  destruct (filter (fun p => String.eqb (p_id p) propertyId) (properties w))
    as [|property others] eqn:E.
  - eexists _, _, []. split; [reflexivity|]. rewrite app_nil_r. auto.
  - assert (I : In property (properties w)).
    { assert (I : In property (property :: others)) by now left.
      rewrite <- E in I. now apply filter_In in I. }
    destruct (sync_enabled property) eqn:En;
      [destruct (orUndefined (ical_url property)) as [url|] eqn:U|].
    + destruct (pass_outline propertyId url w)
        as (r & w' & news & P & St & B & [->|Rq]); rewrite P.
      * exists r, w, news. auto.
      * exists r, w', news. repeat split; auto. right. exists url.
        apply orUndefined_Some in U as [U N].
        split; [|exact Rq]. split; [exact N|]. now exists property.
    + eexists _, _, []. split; [reflexivity|]. rewrite app_nil_r. auto.
    + eexists _, _, []. split; [reflexivity|]. rewrite app_nil_r. auto.
Qed.

Lemma settings_In (l l' : list Property) (p : Property) :
  map syncSettings l' = map syncSettings l -> In p l' ->
  exists q, In q l /\ syncSettings q = syncSettings p.
Proof.
  intros E I. apply (in_map syncSettings) in I. rewrite E in I.
  apply in_map_iff in I as (q & Q & I). now exists q.
Qed.

Lemma syncedFromUrl_settings (w w' : World) (url : string) :
  map syncSettings (properties w') = map syncSettings (properties w) ->
  syncedFromUrl w' url -> syncedFromUrl w url.
Proof.
  intros E (N & p & I & En & U). split; [exact N|].
  destruct (settings_In _ _ _ E I) as (q & Iq & Q).
  exists q. unfold syncSettings in Q. injection Q as _ -> ->. auto.
Qed.

Lemma syncEach_outline (found : list Property) :
  forall (results : list SyncResult) (w : World),
  exists results' w' urls news,
    syncEach rt found results w = (Returned results', w') /\
    List.length results' = (List.length results + List.length found)%nat /\
    map syncSettings (properties w') = map syncSettings (properties w) /\
    map booking_id (bookings w') = (map booking_id (bookings w) ++ news)%list /\
    requests w' = (requests w ++ urls)%list /\
    (List.length urls <= List.length found)%nat /\
    (forall url, In url urls -> syncedFromUrl w url).
Proof.
  induction found as [|property more IH]; intros results w.
  - exists results, w, [], []. cbn. rewrite !app_nil_r.
    repeat split; auto. contradiction.
  - cbn [syncEach]. unfold bind at 1.
    destruct (syncPropertyCalendar_outline (p_id property) w)
      as (r & w1 & news1 & P & St & B & Rq). rewrite P.
    destruct (IH (results ++ [r])%list w1)
      as (rs & w' & urls & news & Q & L & St' & B' & Rq' & Lu & Us).
    rewrite Q. rewrite B, <- app_assoc in B'. rewrite St in St'.
    rewrite length_app in L. cbn [List.length] in L |- *.
    destruct Rq as [->|(url & U & Rq)].
    + exists rs, w', urls, (news1 ++ news)%list.
      split; [reflexivity|]. split; [lia|]. split; [exact St'|].
      split; [exact B'|]. split; [exact Rq'|]. split; [lia|exact Us].
    + exists rs, w', (url :: urls), (news1 ++ news)%list.
      rewrite Rq, <- app_assoc in Rq'. cbn [List.length].
      split; [reflexivity|]. split; [lia|]. split; [exact St'|].
      split; [exact B'|]. split; [exact Rq'|]. split; [lia|].
      intros u [<-|I]; [exact U|].
      apply (syncedFromUrl_settings w w1); [exact St|]. now apply Us.
Qed.

End BulkSync.

(** X12. Whether the bulk sync returns or throws, it sends at most one
    request for each property that has the sync flag set and a calendar
    URL that is not NULL, and every request goes to a URL that is not
    empty and is stored as the calendar URL of a property with the sync
    flag set. No booking is deleted, no property changes its id, its URL
    or its flag, and with no such property nothing changes at all. When
    it returns, it returns one result for each of these properties. *)
Theorem bulk_sync_outline (rt : Runtime) (w w' : World)
    (out : Outcome (list SyncResult)) :
  syncAllProperties rt w = (out, w') ->
  (exists urls,
     requests w' = (requests w ++ urls)%list /\
     (List.length urls <= List.length (selectedForSync w))%nat /\
     (forall url, In url urls ->
        url <> "" /\
        exists p, In p (properties w) /\ sync_enabled p = true /\
                  ical_url p = Some url)) /\
  map syncSettings (properties w') = map syncSettings (properties w) /\
  (exists news,
     map booking_id (bookings w')
     = (map booking_id (bookings w) ++ news)%list) /\
  (selectedForSync w = [] -> w' = w) /\
  (forall results, out = Returned results ->
     List.length results = List.length (selectedForSync w)).
Proof.
  unfold syncAllProperties, bind, selectSyncedProperties.
  fold (selectedForSync w).
  destruct (syncEach_outline rt (selectedForSync w) [] w)
    as (rs & w1 & urls & news & Q & L & St & B & Rq & Lu & Us).
  rewrite Q. intros E. injection E as <- <-.
  split; [exists urls; split; [exact Rq|split; [exact Lu|exact Us]]|].
  split; [exact St|]. split; [now exists news|]. split.
  - intros E. rewrite E in Q. cbn in Q. unfold ret in Q. congruence.
  - intros results E. injection E as <-. exact L.
Qed.

Lemma bulk_sync_outline_witness :
  map syncSettings
    (properties (snd (syncAllProperties sampleRuntime mixedWorld)))
  = map syncSettings (properties mixedWorld) /\
  (forall results,
     fst (syncAllProperties sampleRuntime mixedWorld) = Returned results ->
     List.length results = 1%nat).
Proof.
  destruct (bulk_sync_outline sampleRuntime mixedWorld _ _
              (surjective_pairing _)) as (_ & S & _ & _ & L).
  split; [exact S|exact L].
Defined.

(** X13. [start] never throws and leaves the scheduler running. From a
    stopped scheduler it runs one bulk sync, whose world is the world it
    leaves, and installs the task "0 */2 * * *"; on a running scheduler
    it does nothing, so that a second [start] changes neither the state
    nor the world. After [stop] the status is "Not scheduled". *)
Theorem scheduler_lifecycle (rt : Runtime)
    (s : CalendarScheduler.SchedulerState) (w : World) :
  exists s1 w1,
    CalendarScheduler.start rt s w = (Returned s1, w1) /\
    CalendarScheduler.isRunning s1 = true /\
    (CalendarScheduler.isRunning s = true -> s1 = s /\ w1 = w) /\
    (CalendarScheduler.isRunning s = false ->
     w1 = snd (syncAllProperties rt w) /\
     option_map CalendarScheduler.cronExpression (CalendarScheduler.task s1)
       = Some "0 */2 * * *") /\
    CalendarScheduler.start rt s1 w1 = (Returned s1, w1) /\
    CalendarScheduler.getStatus s1 = (true, "Every 2 hours") /\
    CalendarScheduler.getStatus (CalendarScheduler.stop s1)
      = (false, "Not scheduled").
Proof.
  unfold CalendarScheduler.start.
  destruct (CalendarScheduler.isRunning s) eqn:R.
  - exists s, w. unfold ret, CalendarScheduler.getStatus. rewrite R.
    repeat split; auto; discriminate.
  - unfold bind at 1, CalendarScheduler.scheduledSync, tryCatch, bind, ret.
    destruct (syncAllProperties rt w) as [[rs|msg] w'] eqn:Q;
      (eexists _, _; split; [reflexivity|]; cbn;
       repeat split; auto; discriminate).
Qed.

(** X14. [testCalendarUrl] never throws and touches no table; it sends
    one request, or none when axios refuses the URL before it sends
    anything. It answers valid, with the number of events and no error,
    only for a request answered with the status 200 and a body that the
    parser accepts; otherwise it answers invalid with no event and the
    message of the download, which starts with
    "Failed to download iCal data: ". *)
Theorem test_of_a_url (rt : Runtime) (url : string) (w : World) :
  exists t w',
    testCalendarUrl rt url w = (Returned t, w') /\
    properties w' = properties w /\ bookings w' = bookings w /\
    (forall msg,
       network rt (List.length (requests w)) url = HttpUnsent msg ->
       requests w' = requests w) /\
    ((forall msg,
        network rt (List.length (requests w)) url <> HttpUnsent msg) ->
     requests w' = (requests w ++ [url])%list) /\
    (valid t = true ->
     error t = None /\
     exists data parsed,
       network rt (List.length (requests w)) url = HttpResponse 200 data /\
       parseICS rt data = Returned parsed /\
       eventCount t = List.length (collectEvents parsed [])) /\
    (valid t = false ->
     eventCount t = 0%nat /\
     exists msg, error t = Some msg /\
                 startsWith msg "Failed to download iCal data: " = true).
Proof.
  unfold testCalendarUrl, tryCatch, bind, ret.
  destruct (downloadICalData_cases rt url w)
    as (out & w' & D & Pr & Bk & _ & _ & U & S & R & T).
  rewrite D. destruct out as [events|msg].
  - eexists _, _. split; [reflexivity|].
    split; [exact Pr|]. split; [exact Bk|]. split; [exact U|].
    split; [exact S|]. cbn. split; [|discriminate].
    intros _. split; [reflexivity|].
    destruct (R events eq_refl) as (_ & data & parsed & N & P & ->).
    now exists data, parsed.
  - eexists _, _. split; [reflexivity|].
    split; [exact Pr|]. split; [exact Bk|]. split; [exact U|].
    split; [exact S|]. cbn. split; [discriminate|].
    intros _. split; [reflexivity|]. exists msg. split; [reflexivity|].
    now apply T.
Qed.

Section Routes.

(** After a match of "BEGIN:VEVENT" no other match starts inside it: the
    word has its first letter nowhere else. *)
Lemma no_match_inside (t : string) (j : nat) :
  (j < 11)%nat ->
  startsWith (drop j ("EGIN:VEVENT" ++ t)) "BEGIN:VEVENT" = false.
Proof.
  intros H.
  do 11 (destruct j as [|j]; [reflexivity|]). lia.
Qed.

Lemma occurrences_empty (word : string) :
  word <> "" -> occurrences word "" = 0%nat.
Proof. destruct word; [congruence|reflexivity]. Qed.

(** The global match counts every index at which the word starts: with
    [k] characters of a match still to pass, none of which starts a
    match, the count is the number of occurrences. *)
Lemma countMatches_occurrences (s : string) :
  forall k,
    (forall j, (j < k)%nat -> startsWith (drop j s) "BEGIN:VEVENT" = false) ->
    countMatches k "BEGIN:VEVENT" s = occurrences "BEGIN:VEVENT" s.
Proof.
  induction s as [|c t IH]; intros k H.
  - now destruct k.
  - cbn [countMatches occurrences]. destruct k as [|k].
    + destruct (startsWith (String c t) "BEGIN:VEVENT") eqn:M.
      * apply startsWith_split in M as (u & E).
        cbn [append] in E. injection E as -> ->.
        cbn [String.length Nat.sub]. rewrite (IH 11%nat); [reflexivity|].
        intros j L. now apply no_match_inside.
      * apply (IH 0%nat). intros j L. lia.
    + assert (H0 : startsWith (drop 0 (String c t)) "BEGIN:VEVENT" = false)
        by (apply H; lia).
      cbn [drop] in H0. rewrite H0. cbn [Nat.add].
      apply IH. intros j L. apply (H (S j)). lia.
Qed.

End Routes.

(** X15. [POST /sync/:propertyId] never answers 500. It answers 400, and
    reads and writes nothing, exactly when the property id or the URL is
    missing or empty; otherwise it runs one pass and answers 200 with the
    result of the pass, also when the pass failed: for a property that is
    not stored the answer is 200 with the error "Property not found". *)
Theorem sync_route_answers (rt : Runtime) (propertyId : string)
    (icalUrl : option string) (w : World) :
  exists code body w',
    postSync rt propertyId icalUrl w = (Returned (code, body), w') /\
    (code = 400 \/ code = 200) /\
    (code = 400 <-> truthy propertyId = false \/ orUndefined icalUrl = None) /\
    (code = 400 -> w' = w /\ exists reason, body = SyncRefused reason) /\
    (code = 200 ->
     exists url result,
       orUndefined icalUrl = Some url /\ body = SyncOutcome result /\
       syncPropertyCalendarWithUrl rt propertyId url w = (Returned result, w') /\
       (storedProperty propertyId w = None ->
        result = pushError newResult "Property not found")).
Proof.
  unfold postSync, tryCatch.
  destruct (truthy propertyId); cbn [negb].
  - destruct (orUndefined icalUrl) as [url|].
    + destruct (pass_outline rt propertyId url w) as (r & w' & news & P & _).
      unfold bind, ret. rewrite P.
      exists 200, (SyncOutcome r), w'. split; [reflexivity|].
      split; [now right|]. split; [|split; [discriminate|]].
      * split; [discriminate|]. intros [H|H]; discriminate.
      * intros _. exists url, r. repeat split; auto.
        intros S. rewrite syncPropertyCalendarWithUrl_eq, S in P. congruence.
    + eexists _, _, _. split; [reflexivity|].
      split; [now left|]. split; [tauto|]. split; [|discriminate].
      intros _. split; [reflexivity|]. eauto.
  - eexists _, _, _. split; [reflexivity|].
    split; [now left|]. split; [tauto|]. split; [|discriminate].
    intros _. split; [reflexivity|]. eauto.
Qed.

(** X16. [POST /test-url] answers 400, without sending a request, when
    the URL is missing, empty or malformed. Otherwise it touches no
    table, sends one request unless axios refuses the URL, and answers
    200; the answer says valid exactly when the response has a 2xx status
    and a body that is text and contains "BEGIN:VCALENDAR", and then the
    event count is the number of indices of the body at which
    "BEGIN:VEVENT" starts. *)
Theorem test_url_route_answers (rt : Runtime)
    (isUrl isAborted isText : string -> bool)
    (icalUrl : option string) (w : World) :
  match orUndefined icalUrl with
  | None =>
      postTestUrl rt isUrl isAborted isText icalUrl w
      = (Returned (400, UrlInvalid "iCal URL is required"), w)
  | Some url =>
      if isUrl url then
        exists body,
          postTestUrl rt isUrl isAborted isText icalUrl w
          = (Returned (200, body),
             afterAnswer (network rt (List.length (requests w)) url) url w) /\
          ((exists n note, body = UrlValid n note) <->
           (exists status data,
              network rt (List.length (requests w)) url
                = HttpResponse status data /\
              200 <= status < 300 /\
              isText data = true /\
              includes data "BEGIN:VCALENDAR" = true)) /\
          (forall n note, body = UrlValid n note ->
             exists status data,
               network rt (List.length (requests w)) url
                 = HttpResponse status data /\
               n = occurrences "BEGIN:VEVENT" data)
      else
        postTestUrl rt isUrl isAborted isText icalUrl w
        = (Returned (400, UrlInvalid "Invalid URL format"), w)
  end.
Proof.
  unfold postTestUrl.
  destruct (orUndefined icalUrl) as [url|]; [|reflexivity].
  destruct (isUrl url); [|reflexivity]. cbn [negb].
  fold (afterRequest url w). unfold afterAnswer.
  destruct (network rt (List.length (requests w)) url)
    as [status data|msg|msg] eqn:N.
  - destruct ((200 <=? status) && (status <? 300))%bool eqn:S.
    + apply andb_true_iff in S as [S1 S2].
      apply Z.leb_le in S1. apply Z.ltb_lt in S2.
      destruct (isText data) eqn:T; cbn [negb orb].
      * destruct (includes data "BEGIN:VCALENDAR") eqn:I; cbn [negb].
        -- eexists. split; [reflexivity|]. split.
           ++ split; [|eauto]. intros _. exists status, data. auto.
           ++ intros n note E. injection E as <- _. exists status, data.
              split; [reflexivity|].
              apply countMatches_occurrences. intros j L. lia.
        -- eexists. split; [reflexivity|]. split; [|discriminate].
           split; [intros (n & note & E); discriminate|].
           intros (st & d & E & _ & _ & I'). congruence.
      * eexists. split; [reflexivity|]. split; [|discriminate].
        split; [intros (n & note & E); discriminate|].
        intros (st & d & E & _ & T' & _). congruence.
    + assert (R : ~ (exists status0 data0,
                       HttpResponse status data = HttpResponse status0 data0 /\
                       200 <= status0 < 300 /\ isText data0 = true /\
                       includes data0 "BEGIN:VCALENDAR" = true)).
      { intros (st & d & E & [L1 L2] & _). injection E as <- <-.
        apply Z.leb_le in L1. apply Z.ltb_lt in L2. rewrite L1, L2 in S.
        discriminate. }
      destruct (status =? 404);
        [|destruct (negb (status =? 0) && (400 <=? status))%bool];
        (eexists; split; [reflexivity|]; split; [|discriminate];
         split; [intros (n & note & E); discriminate|];
         intros H; now apply R in H).
  - destruct (isAborted msg);
      (eexists; split; [reflexivity|]; split; [|discriminate];
       split; [intros (n & note & E); discriminate|];
       intros (st & d & E & _); discriminate).
  - eexists. split; [reflexivity|]. split; [|discriminate].
    split; [intros (n & note & E); discriminate|].
    intros (st & d & E & _); discriminate.
Qed.

(** X17. For a stored property with the sync flag set and a calendar URL
    that is not empty, [syncPropertyCalendar] is the pass of
    [syncPropertyCalendarWithUrl] from the stored URL: the two return the
    same result and leave the same world. *)
Theorem enabled_property_is_synced_from_its_url (rt : Runtime)
    (propertyId url : string) (w : World) (property : Property) :
  storedProperty propertyId w = Some property ->
  sync_enabled property = true ->
  ical_url property = Some url ->
  url <> "" ->
  syncPropertyCalendar rt propertyId w
  = syncPropertyCalendarWithUrl rt propertyId url w.
Proof.
  intros S En U N.
  unfold syncPropertyCalendar, tryCatch, bind, selectProperty, ret.
  unfold storedProperty in S.
  destruct (filter (fun p => String.eqb (p_id p) propertyId) (properties w))
    as [|p others]; [discriminate|].
  injection S as ->. rewrite En, U. cbn [orUndefined].
  apply truthy_iff in N. rewrite N.
  destruct (pass_outline rt propertyId url w) as (r & w' & news & P & _).
  now rewrite P.
Qed.

Lemma enabled_property_witness :
  syncPropertyCalendar sampleRuntime "prop-1" mixedWorld
  = syncPropertyCalendarWithUrl sampleRuntime "prop-1"
      "https://example.org/cal.ics" mixedWorld.
Proof.
  apply (enabled_property_is_synced_from_its_url sampleRuntime "prop-1"
           "https://example.org/cal.ics" mixedWorld sampleProperty);
    [reflexivity|reflexivity|reflexivity|discriminate].
Defined.
